(** * annotate-me.ts: the number prompt and its two validation stages

    A shallow embedding of [src/annotate-me.ts] together with the part of
    the JavaScript language and of the Node runtime the program relies on:

    - strings are sequences of UTF-16 code units;
    - [number] is IEEE-754 binary64, modelled with the Standard Library's
      [SpecFloat] at precision 53 and maximal exponent 1024;
    - [parseInt], [isNaN], the relational operators and the number to string
      conversion follow ECMA-262;
    - [fs.readFile('/dev/stdin', 'utf8')] settles with the entire contents
      of its file or with an error; the loop of the async function is run
      against the results of its successive reads;
    - a function that is only declared has no binding at run time. *)

From Stdlib Require Import ZArith NArith PArith List String Ascii Bool Lia.
From Stdlib Require Import Floats.SpecFloat.
From Stdlib Require Import DecimalPos DecimalN.
Import ListNotations.

Local Open Scope Z_scope.

(** ** The JavaScript values the program manipulates *)

Module JS.

(** *** Strings *)

Definition code_unit := N.
Definition jsstring := list code_unit.

(** A literal of the source text, as code units. *)
Definition str (s : string) : jsstring :=
  map N_of_ascii (list_ascii_of_string s).

(** The line feed, which Rocq's string literals cannot escape. *)
Definition LF : code_unit := 10%N.

(** WhiteSpace and LineTerminator code points of ECMA-262 (sections 12.2 and
    12.3), all of which are single code units. *)
Definition isWhiteSpace (c : code_unit) : bool :=
  ((c =? 0x09) || (c =? 0x0A) || (c =? 0x0B) || (c =? 0x0C) || (c =? 0x0D)
   || (c =? 0x20) || (c =? 0xA0) || (c =? 0x1680)
   || ((0x2000 <=? c) && (c <=? 0x200A))
   || (c =? 0x2028) || (c =? 0x2029) || (c =? 0x202F) || (c =? 0x205F)
   || (c =? 0x3000) || (c =? 0xFEFF))%N.

(** TrimString(s, start). *)
Fixpoint trimStart (s : jsstring) : jsstring :=
  match s with
  | c :: rest => if isWhiteSpace c then trimStart rest else s
  | [] => []
  end.

(** *** Numbers *)

Definition prec : Z := 53.
Definition emax : Z := 1024.

Definition number := spec_float.

Definition NaN : number := S754_nan.

(** The numbers of the language are the valid binary64 values. *)
Definition isDouble (x : number) : bool := valid_binary prec emax x.

(** 𝔽(z): the number nearest to the integer [z], ties to even, infinite
    when [z] is beyond the largest finite number.  ECMA-262 lets [parseInt]
    approximate a decimal numeral of more than 20 significant digits; the
    correctly rounded result taken here is what V8 computes. *)
Definition F (z : Z) : number := binary_normalize prec emax z 0 false.

(** ℝ(x) when it is an integer. *)
Definition integerValue (x : number) : option Z :=
  match x with
  | S754_zero _ => Some 0
  | S754_finite s m e =>
      match e with
      | Z0 => Some (cond_Zopp s (Zpos m))
      | Zpos _ => Some (cond_Zopp s (Zpos m * 2 ^ e))
      | Zneg p =>
          if Zpos m mod 2 ^ Zpos p =? 0
          then Some (cond_Zopp s (Zpos m / 2 ^ Zpos p))
          else None
      end
  | S754_infinity _ | S754_nan => None
  end.

(** The global [isNaN], on a number. *)
Definition isNaN (x : number) : bool :=
  match x with S754_nan => true | _ => false end.

(** [x > y] and [x <= y] on numbers: false as soon as an operand is NaN. *)
Definition gt (x y : number) : bool := SFltb y x.
Definition le (x y : number) : bool := SFleb x y.

(** *** parseInt(string) with no radix argument (ECMA-262, 19.2.5) *)

(** The value of a code unit as a digit: 0-9, then a-z and A-Z for 10-35. *)
Definition digitValue (c : code_unit) : option N :=
  (if (0x30 <=? c) && (c <=? 0x39) then Some (c - 0x30)
   else if (0x61 <=? c) && (c <=? 0x7A) then Some (c - 0x61 + 10)
   else if (0x41 <=? c) && (c <=? 0x5A) then Some (c - 0x41 + 10)
   else None)%N.

Definition isRadixDigit (R : N) (c : code_unit) : bool :=
  match digitValue c with
  | Some d => (d <? R)%N
  | None => false
  end.

(** The longest prefix made of radix-[R] digits (steps 11 and 12). *)
Fixpoint radixPrefix (R : N) (s : jsstring) : jsstring :=
  match s with
  | c :: rest => if isRadixDigit R c then c :: radixPrefix R rest else []
  | [] => []
  end.

(** The integer a digit sequence denotes in radix [R] (step 14). *)
Definition radixValue (R : N) (digits : jsstring) : N :=
  fold_left
    (fun acc c => (acc * R + match digitValue c with Some d => d | None => 0 end)%N)
    digits 0%N.

Definition parseInt (input : jsstring) : number :=
  let trimmed := trimStart input in
  let sign :=
    match trimmed with
    | c :: _ => (c =? 0x2D)%N
    | [] => false
    end in
  let unsigned :=
    match trimmed with
    | c :: rest => if ((c =? 0x2B) || (c =? 0x2D))%N then rest else trimmed
    | [] => trimmed
    end in
  let '(R, rest) :=
    match unsigned with
    | c0 :: c1 :: rest =>
        if ((c0 =? 0x30) && ((c1 =? 0x78) || (c1 =? 0x58)))%N
        then (16%N, rest) else (10%N, unsigned)
    | _ => (10%N, unsigned)
    end in
  match radixPrefix R rest with
  | [] => NaN
  | digits =>
      let mathInt := radixValue R digits in
      if (mathInt =? 0)%N then S754_zero sign
      else F (cond_Zopp sign (Z.of_N mathInt))
  end.

(** *** Number::toString(x) in radix 10 (ECMA-262, 6.1.6.1.20) *)

Fixpoint uintCodeUnits (d : Decimal.uint) : jsstring :=
  match d with
  | Decimal.Nil => []
  | Decimal.D0 d' => 0x30%N :: uintCodeUnits d'
  | Decimal.D1 d' => 0x31%N :: uintCodeUnits d'
  | Decimal.D2 d' => 0x32%N :: uintCodeUnits d'
  | Decimal.D3 d' => 0x33%N :: uintCodeUnits d'
  | Decimal.D4 d' => 0x34%N :: uintCodeUnits d'
  | Decimal.D5 d' => 0x35%N :: uintCodeUnits d'
  | Decimal.D6 d' => 0x36%N :: uintCodeUnits d'
  | Decimal.D7 d' => 0x37%N :: uintCodeUnits d'
  | Decimal.D8 d' => 0x38%N :: uintCodeUnits d'
  | Decimal.D9 d' => 0x39%N :: uintCodeUnits d'
  end.

(** The decimal digits of a natural number, most significant first. *)
Definition decimalDigits (n : N) : jsstring := uintCodeUnits (N.to_uint n).

Section NumberToString.

(** The digits of a finite, positive number that is not an integer below
    2^53 (shortest digit string that reads back as the number, with its
    zeros, decimal point or exponent).  No path of the program prints such
    a number; the conversion is left as a parameter.  Below 2^53 every
    integer is a number of its own, and its shortest digits are its
    digits. *)
Variable shortestDigits : number -> jsstring.

Definition numberToString (x : number) : jsstring :=
  match x with
  | S754_nan => str "NaN"
  | S754_zero _ => str "0"
  | S754_infinity s => (if s then str "-" else []) ++ str "Infinity"
  | S754_finite s m e =>
      (if s then str "-" else []) ++
      match integerValue (S754_finite false m e) with
      | Some n =>
          if n <? 9007199254740992 then decimalDigits (Z.to_N n)
          else shortestDigits (S754_finite false m e)
      | None => shortestDigits (S754_finite false m e)
      end
  end.

End NumberToString.

End JS.

Import JS.

(** ** The program *)

(** *** The three shapes and their union (lines 23 to 39) *)

Record UnsanitizedNumber := mkUnsanitizedNumber { unsanitized_value : number }.
Record SanitizedNumber := mkSanitizedNumber { sanitized_value : number }.
Record InvalidNumber := mkInvalidNumber { }.

Inductive AppNumber :=
| Invalid (n : InvalidNumber)
| Sanitized (n : SanitizedNumber)
| Unsanitized (n : UnsanitizedNumber).

(** The [kind] field: each shape carries its own string literal. *)
Definition kind (n : AppNumber) : jsstring :=
  match n with
  | Invalid _ => str "invalid-number"
  | Sanitized _ => str "sanitized-number"
  | Unsanitized _ => str "unsanitized-number"
  end.

(** The [value] property, which an invalid number does not have. *)
Definition value (n : AppNumber) : option number :=
  match n with
  | Invalid _ => None
  | Sanitized s => Some (sanitized_value s)
  | Unsanitized u => Some (unsanitized_value u)
  end.

(** *** The two stages (lines 45 to 77); [None] is [null] *)

Definition unsanitizedNumber (input : jsstring) : option UnsanitizedNumber :=
  let num := parseInt input in
  if isNaN num then None
  else Some {| unsanitized_value := parseInt input |}.

Definition sanitizedNumber (input : option UnsanitizedNumber)
  : option SanitizedNumber :=
  match input with
  | None => None
  | Some input =>
      if gt (unsanitized_value input) (F 0) && le (unsanitized_value input) (F 10)
      then Some {| sanitized_value := unsanitized_value input |}
      else None
  end.

(** *** What the program does to the outside *)

Inductive io_error := IOError (code : jsstring).

(** How a call of [fs.readFile('/dev/stdin', 'utf8')] settles. *)
Inductive settled :=
| Resolved (contents : jsstring)
| Rejected (e : io_error).

Inductive effect :=
| ConsoleLog (line : jsstring)
| ConsoleError (line : jsstring)
| Await (r : settled).

(** Lines 83 to 85.  The parameter is of type [any]; the one call passes
    the text that was read. *)
Definition showError (x : jsstring) : effect :=
  ConsoleError (x ++ str " is not what I asked for.").

(** *** The interaction loop (lines 88 to 118) *)

Inductive control :=
| InLoop                 (* at the top of the [do] body, before the read *)
| Finished               (* past line 115: the async function returned *)
| Crashed (e : io_error) (* the rejection of the read left the function *).

Record config := mkConfig
  { pc : control;
    finalNumber : AppNumber;
    trace : list effect }.

Definition jsstring_eqb (a b : jsstring) : bool :=
  if list_eq_dec N.eq_dec a b then true else false.

Section Loop.

Variable shortestDigits : number -> jsstring.

(** The template literal of line 115, [undefined] printing as itself. *)
Definition successMessage (n : AppNumber) : jsstring :=
  str "You did what I wanted and gave me "
  ++ match value n with
     | Some v => numberToString shortestDigits v
     | None => str "undefined"
     end
  ++ str "!".

(** One pass through the [do] body and the [while] test, for a read that
    settled with [r]; leaving the loop runs line 115. *)
Definition iteration (r : settled) (c : config) : config :=
  match r with
  | Rejected e =>
      {| pc := Crashed e;
         finalNumber := finalNumber c;
         trace := trace c ++ [Await r] |}
  | Resolved input =>
      let numStep1 := unsanitizedNumber input in
      let numStep2 := sanitizedNumber numStep1 in
      let c' :=
        match numStep2 with
        | Some n =>
            {| pc := InLoop;
               finalNumber := Sanitized n;
               trace := trace c ++ [Await r] |}
        | None =>
            {| pc := InLoop;
               finalNumber := finalNumber c;
               trace := trace c ++ [Await r; showError input] |}
        end in
      if negb (jsstring_eqb (kind (finalNumber c')) (str "sanitized-number"))
      then c'
      else
        {| pc := Finished;
           finalNumber := finalNumber c';
           trace := trace c' ++ [ConsoleLog (successMessage (finalNumber c'))] |}
  end.

(** The loop against the successive results of its reads.  When they run
    out the configuration is still [InLoop]: suspended at the [await]. *)
Fixpoint run (reads : list settled) (c : config) : config :=
  match reads with
  | [] => c
  | r :: rest =>
      match pc c with
      | InLoop => run rest (iteration r c)
      | _ => c
      end
  end.

Definition initial : config :=
  {| pc := InLoop;
     finalNumber := Invalid mkInvalidNumber;
     trace := [ConsoleLog (str "Give me a number between 1 and 10:")] |}.

Definition main (reads : list settled) : config := run reads initial.

(** One step of the loop, as a relation: the configurations the program
    can be in are those reachable from [initial]. *)
Inductive step : config -> config -> Prop :=
| step_iteration r c : pc c = InLoop -> step c (iteration r c).

Inductive reachable : config -> Prop :=
| reachable_initial : reachable initial
| reachable_step c c' : reachable c -> step c c' -> reachable c'.

End Loop.

(** *** The typing checks (lines 125 to 202) *)

Definition invalidTestData : InvalidNumber := mkInvalidNumber.

Definition unsanitizedTestData : UnsanitizedNumber :=
  {| unsanitized_value := F 0 |}.

Definition sanitizedTestData : SanitizedNumber :=
  {| sanitized_value := F 0 |}.

(** Lines 191 to 202.  The [switch] compares the kind with each label in
    turn and returns the [value] property, which is [undefined] on an
    invalid number; so is the result when no label matches. *)
Definition getValue (num : AppNumber) : option number :=
  if jsstring_eqb (kind num) (str "invalid-number") then value num
  else if jsstring_eqb (kind num) (str "sanitized-number") then value num
  else if jsstring_eqb (kind num) (str "unsanitized-number") then value num
  else None.

(** *** The module from top to bottom *)

Inductive exception := ReferenceError (identifier : jsstring).

(** Lines 142 to 144 and 183.  [declare] gives the type checker a signature
    and the program nothing: at run time the identifier is not bound, and
    evaluating the call throws before the argument is looked at. *)
Definition testUnsanitized (x : AppNumber) : exception + unit :=
  inl (ReferenceError (str "testUnsanitized")).

Definition testSanitized (x : AppNumber) : exception + unit :=
  inl (ReferenceError (str "testSanitized")).

Definition testInvalid (x : AppNumber) : exception + unit :=
  inl (ReferenceError (str "testInvalid")).

Definition getNumber : exception + AppNumber :=
  inl (ReferenceError (str "getNumber")).

Definition andThen {A B : Type} (m : exception + A) (k : A -> exception + B)
  : exception + B :=
  match m with
  | inl e => inl e
  | inr a => k a
  end.

(** The statements of lines 147 to 204, in their order. *)
Definition typingChecks : exception + unit :=
  andThen (testUnsanitized (Unsanitized unsanitizedTestData)) (fun _ =>
  andThen (testUnsanitized (Sanitized sanitizedTestData)) (fun _ =>
  andThen (testUnsanitized (Invalid invalidTestData)) (fun _ =>
  andThen (testUnsanitized (Sanitized sanitizedTestData)) (fun _ =>
  andThen (testSanitized (Sanitized sanitizedTestData)) (fun _ =>
  andThen (testSanitized (Invalid invalidTestData)) (fun _ =>
  andThen (testSanitized (Unsanitized unsanitizedTestData)) (fun _ =>
  andThen (testInvalid (Invalid invalidTestData)) (fun _ =>
  andThen (testInvalid (Sanitized sanitizedTestData)) (fun _ =>
  andThen (testInvalid (Unsanitized unsanitizedTestData)) (fun _ =>
  andThen getNumber (fun number =>
  let _ := value number in
  let _ := getValue number in
  inr tt))))))))))).

(** How the module runs.  The async function of line 88 is called first and
    runs up to its first [await]: the prompt is printed and the first read
    is pending, which is [initial].  The statements that follow it run
    next; an exception they throw is caught by nobody and ends the program
    with what was printed so far.  Only when they end normally do the reads
    settle and the loop go on. *)
Inductive execution :=
| Uncaught (e : exception) (printed : list effect)
| EventLoop (c : config).

Definition execute (shortestDigits : number -> jsstring)
  (reads : list settled) : execution :=
  match typingChecks with
  | inl e => Uncaught e (trace initial)
  | inr _ => EventLoop (main shortestDigits reads)
  end.

(** An instance of the printing parameter for closed examples, none of
    which prints a number it applies to. *)
Definition noShortestDigits (x : number) : jsstring := [].

(** ** Vocabulary of the statements *)

(** [x <= n] and [0 < x], read on the value [m * 2 ^ e] a number stands for
    rather than on its binary64 encoding. *)
Definition valueLe (x : number) (n : Z) : Prop :=
  match x with
  | S754_nan => False
  | S754_infinity s => s = true
  | S754_zero _ => 0 <= n
  | S754_finite s m e =>
      if 0 <=? e then cond_Zopp s (Zpos m) * 2 ^ e <= n
      else cond_Zopp s (Zpos m) <= n * 2 ^ (- e)
  end.

Definition valuePositive (x : number) : Prop :=
  match x with
  | S754_infinity s | S754_finite s _ _ => s = false
  | S754_zero _ | S754_nan => False
  end.

(** The number 2.5, that is 5 * 2^50 * 2^-51. *)
Definition twoAndAHalf : number := S754_finite false 5629499534213120 (-51).

(** The text of three lines, each with its terminator, as one read yields
    it when the three are in the file together. *)
Definition threeLinesText : jsstring :=
  str "0" ++ [LF] ++ str "11" ++ [LF] ++ str "7" ++ [LF].

(** The reading of section 4.2 of the specification: after leading white
    space and an optional sign, the longest run of decimal digits, taken as
    a base-10 numeral. *)
Definition isDecimalDigit (c : code_unit) : bool :=
  ((0x30 <=? c) && (c <=? 0x39))%N.

Fixpoint leadingDigits (s : jsstring) : list N :=
  match s with
  | c :: rest =>
      if isDecimalDigit c then (c - 0x30)%N :: leadingDigits rest else []
  | [] => []
  end.

Fixpoint base10 (ds : list N) : N :=
  match ds with
  | [] => 0%N
  | d :: rest => (d * 10 ^ N.of_nat (List.length rest) + base10 rest)%N
  end.

Definition afterSign (s : jsstring) : bool * jsstring :=
  match trimStart s with
  | c :: rest =>
      if (c =? 0x2D)%N then (true, rest)
      else if (c =? 0x2B)%N then (false, rest)
      else (false, c :: rest)
  | [] => (false, [])
  end.

Definition leadingDecimal (s : jsstring) : option (bool * N) :=
  let '(negative, body) := afterSign s in
  match leadingDigits body with
  | [] => None
  | ds => Some (negative, base10 ds)
  end.

(** The texts in which [0x] or [0X] follows the white space and sign. *)
Definition hexPrefixed (s : jsstring) : bool :=
  match snd (afterSign s) with
  | c0 :: c1 :: _ => ((c0 =? 0x30) && ((c1 =? 0x78) || (c1 =? 0x58)))%N
  | _ => false
  end.

(** The number a signed magnitude denotes, the sign kept on zero. *)
Definition signedNumber (negative : bool) (v : N) : number :=
  if (v =? 0)%N then S754_zero negative
  else F (cond_Zopp negative (Z.of_N v)).

(** Claim C2 as the specification words it, at one text. *)
Definition parsesLeadingDecimal (s : jsstring) : Prop :=
  (leadingDecimal s = None -> unsanitizedNumber s = None)
  /\ (forall u, unsanitizedNumber s = Some u ->
      exists negative v,
        leadingDecimal s = Some (negative, v)
        /\ integerValue (unsanitized_value u)
           = Some (cond_Zopp negative (Z.of_N v))).

(** [parseInt] once the white space and the sign have been set apart: the
    prefix test, the digits and their value. *)
Definition parseUnsigned (negative : bool) (unsigned : jsstring) : number :=
  let '(R, rest) :=
    match unsigned with
    | c0 :: c1 :: rest =>
        if ((c0 =? 0x30) && ((c1 =? 0x78) || (c1 =? 0x58)))%N
        then (16%N, rest) else (10%N, unsigned)
    | _ => (10%N, unsigned)
    end in
  match radixPrefix R rest with
  | [] => NaN
  | digits => signedNumber negative (radixValue R digits)
  end.

(** The two stages in a row, and the texts they turn down. *)
Definition pipeline (input : jsstring) : option SanitizedNumber :=
  sanitizedNumber (unsanitizedNumber input).

Definition rejected (input : jsstring) : Prop := pipeline input = None.

(** What a rejected attempt leaves in the trace. *)
Definition attempt (input : jsstring) : list effect :=
  [Await (Resolved input); showError input].

(** The reads a trace records, in their order. *)
Definition awaited (tr : list effect) : list settled :=
  flat_map (fun ev => match ev with Await r => [r] | _ => [] end) tr.

(** The diagnostics a trace sends to the error channel. *)
Definition stderr (tr : list effect) : list jsstring :=
  flat_map (fun ev => match ev with ConsoleError l => [l] | _ => [] end) tr.

(** The number of lines [console.error] prints for a text: the text is
    followed by one line feed, and each line feed inside it ends a line. *)
Definition printedLines (text : jsstring) : nat :=
  S (count_occ N.eq_dec text LF).

(** The base-16 reading of a text with the [0x] prefix: after the white
    space, the sign and the two code units of the prefix, the longest run of
    hexadecimal digits, taken as a base-16 numeral. *)
Definition hexDigit (c : code_unit) : option N :=
  (if (0x30 <=? c) && (c <=? 0x39) then Some (c - 0x30)
   else if (0x61 <=? c) && (c <=? 0x66) then Some (c - 0x57)
   else if (0x41 <=? c) && (c <=? 0x46) then Some (c - 0x37)
   else None)%N.

Fixpoint leadingHexDigits (s : jsstring) : list N :=
  match s with
  | c :: rest =>
      match hexDigit c with
      | Some d => d :: leadingHexDigits rest
      | None => []
      end
  | [] => []
  end.

Fixpoint base16 (ds : list N) : N :=
  match ds with
  | [] => 0%N
  | d :: rest => (d * 16 ^ N.of_nat (List.length rest) + base16 rest)%N
  end.

Definition leadingHexadecimal (s : jsstring) : option (bool * N) :=
  let '(negative, body) := afterSign s in
  match body with
  | _ :: _ :: digits =>
      match leadingHexDigits digits with
      | [] => None
      | ds => Some (negative, base16 ds)
      end
  | _ => None
  end.

(** What the trace sends to the standard output. *)
Definition stdout (tr : list effect) : list jsstring :=
  flat_map (fun ev => match ev with ConsoleLog l => [l] | _ => [] end) tr.

(** ** Facts about binary64 *)

Module Float.

Lemma digits2_size (m : positive) : digits2_pos m = Pos.size m.
Proof. induction m as [m IH | m IH | ]; simpl; now rewrite ?IH. Qed.

Lemma digits2_upper (m : positive) : Zpos m < 2 ^ Zpos (digits2_pos m).
Proof.
  rewrite digits2_size.
  pose proof (Pos.size_gt m) as H.
  apply Pos2Z.pos_lt_pos in H.
  now rewrite Pos2Z.inj_pow in H.
Qed.

Lemma digits2_lower (m : positive) : 2 ^ Zpos (digits2_pos m) <= 2 * Zpos m.
Proof.
  rewrite digits2_size.
  pose proof (Pos.size_le m) as H.
  apply Pos2Z.pos_le_pos in H.
  now rewrite Pos2Z.inj_pow in H.
Qed.

Lemma iter_xO_value (m k : positive) :
  Zpos (Pos.iter xO m k) = Zpos m * 2 ^ Zpos k.
Proof.
  induction k as [ | k IH] using Pos.peano_ind.
  - simpl. lia.
  - rewrite Pos.iter_succ, Pos2Z.inj_succ, Z.pow_succ_r by lia.
    rewrite Pos2Z.inj_xO, IH. ring.
Qed.

Lemma iter_xO_digits (m k : positive) :
  digits2_pos (Pos.iter xO m k) = (digits2_pos m + k)%positive.
Proof.
  induction k as [ | k IH] using Pos.peano_ind.
  - simpl. lia.
  - rewrite Pos.iter_succ. simpl. rewrite IH. lia.
Qed.

(** Rounding leaves alone a mantissa of exactly 53 bits whose exponent is in
    range. *)
Lemma binary_round_aux_exact (s : bool) (m : positive) (e : Z) :
  Zpos (digits2_pos m) = 53 -> -1074 <= e <= 971 ->
  binary_round_aux prec emax s (Zpos m) e loc_Exact = S754_finite s m e.
Proof.
  intros Hd He.
  unfold binary_round_aux, shr_fexp, fexp, emin, prec, emax.
  cbn [Zdigits2 shr_record_of_loc]. rewrite Hd.
  replace (Z.max (53 + e - 53) (3 - 1024 - 53) - e) with 0 by lia.
  cbn [shr shr_m loc_of_shr_record round_nearest_even Zdigits2 shr_record_of_loc].
  rewrite Hd.
  replace (Z.max (53 + e - 53) (3 - 1024 - 53) - e) with 0 by lia.
  cbn [shr shr_m].
  destruct (Z.leb_spec e (1024 - 53)); [reflexivity | lia].
Qed.

(** An integer of at most 53 bits is a number: its mantissa is shifted to 53
    bits, nothing is rounded. *)
Lemma binary_round_small (s : bool) (m : positive) :
  Zpos (digits2_pos m) <= 53 ->
  exists m' : positive,
    binary_round prec emax s m 0 = S754_finite s m' (Zpos (digits2_pos m) - 53)
    /\ Zpos m' = Zpos m * 2 ^ (53 - Zpos (digits2_pos m))
    /\ Zpos (digits2_pos m') = 53.
Proof.
  intros Hd.
  unfold binary_round, shl_align, fexp, emin, prec, emax.
  replace (Z.max (Zpos (digits2_pos m) + 0 - 53) (3 - 1024 - 53) - 0)
    with (Zpos (digits2_pos m) - 53) by lia.
  replace (Z.max (Zpos (digits2_pos m) + 0 - 53) (3 - 1024 - 53))
    with (Zpos (digits2_pos m) - 53) by lia.
  destruct (Zpos (digits2_pos m) - 53) as [ | p | p] eqn:E.
  - exists m. split; [ | split].
    + apply binary_round_aux_exact; lia.
    + replace (53 - Zpos (digits2_pos m)) with 0 by lia. simpl. lia.
    + lia.
  - lia.
  - exists (Pos.iter xO m p).
    assert (Hdig : Zpos (digits2_pos (Pos.iter xO m p)) = 53)
      by (rewrite iter_xO_digits; lia).
    split; [ | split].
    + apply binary_round_aux_exact; [exact Hdig | lia].
    + rewrite iter_xO_value. f_equal. f_equal. lia.
    + exact Hdig.
Qed.

(** Beyond 53 bits the exponent of the result is positive, whatever the
    rounding. *)
Lemma binary_round_big (s : bool) (m : positive) :
  53 < Zpos (digits2_pos m) ->
  match binary_round prec emax s m 0 with
  | S754_finite _ _ e => 0 < e
  | _ => True
  end.
Proof.
  intros Hd.
  unfold binary_round, shl_align, fexp, emin, prec, emax.
  replace (Z.max (Zpos (digits2_pos m) + 0 - 53) (3 - 1024 - 53) - 0)
    with (Zpos (digits2_pos m) - 53) by lia.
  destruct (Zpos (digits2_pos m) - 53) as [ | p | p] eqn:E; try lia.
  unfold binary_round_aux, shr_fexp.
  cbn [Zdigits2 shr_record_of_loc].
  replace (fexp 53 1024 (Zpos (digits2_pos m) + 0) - 0) with (Zpos p)
    by (unfold fexp, emin; lia).
  cbn [shr].
  set (r1 := iter_pos shr_1 p _).
  set (m1 := round_nearest_even _ _).
  destruct (fexp 53 1024 (Zdigits2 m1 + (0 + Zpos p)) - (0 + Zpos p))
    as [ | q | q]; cbn [shr];
    match goal with
    | |- context [shr_m ?r] => destruct (shr_m r); trivial
    end;
    match goal with
    | |- context [Z.leb ?a ?b] => destruct (Z.leb a b); trivial; lia
    end.
Qed.

Lemma digits2_bound (m : positive) (k : Z) :
  0 <= k -> Zpos m < 2 ^ k -> Zpos (digits2_pos m) <= k.
Proof.
  intros Hk Hm.
  pose proof (digits2_lower m) as Hl.
  assert (H : 2 ^ Zpos (digits2_pos m) < 2 ^ (k + 1))
    by (rewrite Z.pow_add_r, Z.pow_1_r by lia; lia).
  apply Z.pow_lt_mono_r_iff in H; lia.
Qed.

Lemma ten_eq : F 10 = S754_finite false 5629499534213120 (-49).
Proof. reflexivity. Qed.

Lemma zero_eq : F 0 = S754_zero false.
Proof. reflexivity. Qed.

(** Below 2^53 in magnitude, 𝔽 is exact and gives a valid finite number. *)
Lemma F_exact (z : Z) :
  z <> 0 -> Z.abs z < 2 ^ 53 ->
  exists (m : positive) (e : Z),
    F z = S754_finite (z <? 0) m e
    /\ Zpos m = Z.abs z * 2 ^ (- e) /\ -52 <= e <= 0
    /\ Zpos (digits2_pos m) = 53.
Proof.
  intros Hz Hb.
  assert (Hgen : forall s (p : positive), Zpos p < 2 ^ 53 ->
    exists m e, binary_round prec emax s p 0 = S754_finite s m e
      /\ Zpos m = Zpos p * 2 ^ (- e) /\ -52 <= e <= 0
      /\ Zpos (digits2_pos m) = 53).
  { intros s p Hp.
    pose proof (digits2_bound p 53 ltac:(lia) Hp) as Hd.
    destruct (binary_round_small s p Hd) as (m & Hr & Hv & Hdig).
    exists m, (Zpos (digits2_pos p) - 53).
    repeat split; try assumption; try lia.
    rewrite Hv. f_equal. f_equal. lia. }
  destruct z as [ | p | p]; [congruence | | ].
  - apply (Hgen false p Hb).
  - apply (Hgen true p Hb).
Qed.

Lemma integerValue_exact (s : bool) (m : positive) (e a : Z) :
  0 <= a -> e <= 0 -> Zpos m = a * 2 ^ (- e) ->
  integerValue (S754_finite s m e) = Some (cond_Zopp s a).
Proof.
  intros Ha He Hm. unfold integerValue.
  destruct e as [ | p | p]; [ | lia | ].
  - simpl in Hm. now replace a with (Zpos m) by lia.
  - change (- Zneg p) with (Zpos p) in Hm. rewrite Hm.
    rewrite Z.mod_mul by lia. simpl (0 =? 0).
    rewrite Z.div_mul by lia. reflexivity.
Qed.

Lemma integerValue_F (z : Z) :
  Z.abs z < 2 ^ 53 -> integerValue (F z) = Some z.
Proof.
  intros Hb. destruct (Z.eq_dec z 0) as [-> | Hz]; [reflexivity | ].
  destruct (F_exact z Hz Hb) as (m & e & HF & Hm & He & _).
  rewrite HF, (integerValue_exact _ m e (Z.abs z)) by lia.
  f_equal. destruct (Z.ltb_spec z 0); simpl; lia.
Qed.

Lemma isDouble_F (z : Z) : Z.abs z < 2 ^ 53 -> isDouble (F z) = true.
Proof.
  intros Hb. destruct (Z.eq_dec z 0) as [-> | Hz]; [reflexivity | ].
  destruct (F_exact z Hz Hb) as (m & e & HF & _ & He & Hd).
  rewrite HF. unfold isDouble, valid_binary, bounded, canonical_mantissa.
  rewrite Hd. unfold fexp, emin, prec, emax.
  apply andb_true_intro; split; [apply Z.eqb_eq | apply Z.leb_le]; lia.
Qed.

(** What validity says of a finite number. *)
Lemma isDouble_finite (s : bool) (m : positive) (e : Z) :
  isDouble (S754_finite s m e) = true ->
  Zpos (digits2_pos m) <= 53 /\ -1074 <= e <= 971
  /\ (e <> -1074 -> Zpos (digits2_pos m) = 53).
Proof.
  unfold isDouble, valid_binary, bounded, canonical_mantissa, fexp, emin,
    prec, emax.
  intros H. apply andb_prop in H as [H1 H2].
  apply Z.eqb_eq in H1. apply Z.leb_le in H2. lia.
Qed.

Lemma pow2_pos (k : Z) : 0 <= k -> 0 < 2 ^ k.
Proof. intros. apply Z.pow_pos_nonneg; lia. Qed.

Lemma pow2_le (a b : Z) : 0 <= a <= b -> 2 ^ a <= 2 ^ b.
Proof. intros. apply Z.pow_le_mono_r; lia. Qed.

(** The comparisons of the range test decide the comparisons of values. *)
Lemma gt_zero_spec (x : number) :
  gt x (F 0) = true <-> valuePositive x.
Proof.
  rewrite zero_eq. unfold gt, SFltb, SFcompare, valuePositive.
  destruct x as [s | s | | s m e]; try destruct s; split;
    intros; try discriminate; try contradiction; try reflexivity.
Qed.

Lemma SFcompare_positive (m1 m2 : positive) (e1 e2 : Z) :
  SFcompare (S754_finite false m1 e1) (S754_finite false m2 e2)
  = Some match e1 ?= e2 with
         | Lt => Lt
         | Gt => Gt
         | Eq => Zpos m1 ?= Zpos m2
         end.
Proof. reflexivity. Qed.


Lemma pow2_53 : 2 ^ 53 = 9007199254740992.
Proof. vm_compute. reflexivity. Qed.

Lemma pow2_50 : 2 ^ 50 = 1125899906842624.
Proof. vm_compute. reflexivity. Qed.

Lemma pow2_48 : 2 ^ 48 = 281474976710656.
Proof. vm_compute. reflexivity. Qed.

Lemma ten_pow2_49 : 10 * 2 ^ 49 = 5629499534213120.
Proof. vm_compute. reflexivity. Qed.

Lemma le_ten_spec (x : number) :
  isDouble x = true -> (le x (F 10) = true <-> valueLe x 10).
Proof.
  intros Hv. rewrite ten_eq. unfold le, SFleb.
  destruct x as [s | s | | s m e].
  - simpl. split; intros; [lia | reflexivity].
  - destruct s; simpl; split; intros; congruence.
  - simpl. split; intros; [discriminate | contradiction].
  - apply isDouble_finite in Hv as (Hd & He & Hn).
    pose proof (digits2_upper m) as Hu.
    pose proof (digits2_lower m) as Hl.
    destruct s.
    + unfold valueLe, cond_Zopp. split; [intros _ | reflexivity].
      destruct (Z.leb_spec 0 e).
      * pose proof (pow2_pos e ltac:(lia)). nia.
      * pose proof (pow2_pos (- e) ltac:(lia)). nia.
    + rewrite SFcompare_positive. unfold valueLe, cond_Zopp.
      assert (Hu' : Zpos m < 2 ^ 53).
      { pose proof (pow2_le (Zpos (digits2_pos m)) 53 ltac:(lia)). lia. }
      rewrite pow2_53 in Hu'.
      destruct (Z.compare_spec e (-49)) as [E | E | E].
      * subst e. destruct (Z.leb_spec 0 (-49)); [lia | ].
        replace (- -49) with 49 by lia. rewrite ten_pow2_49.
        destruct (Z.compare_spec (Zpos m) 5629499534213120);
          split; intros; try reflexivity; try discriminate; lia.
      * split; [intros _ | reflexivity].
        destruct (Z.leb_spec 0 e); [lia | ].
        pose proof (pow2_le 50 (- e) ltac:(lia)) as Hp.
        rewrite pow2_50 in Hp. lia.
      * split; [discriminate | ].
        assert (Hd53 : Zpos (digits2_pos m) = 53) by (apply Hn; lia).
        rewrite Hd53, pow2_53 in Hl.
        destruct (Z.leb_spec 0 e).
        -- pose proof (pow2_pos e ltac:(lia)). nia.
        -- pose proof (pow2_le (- e) 48 ltac:(lia)) as Hp.
           rewrite pow2_48 in Hp. lia.
Qed.

(** On an integer the two comparisons are those of the integer. *)
Lemma integerValue_finite (s : bool) (m : positive) (e n : Z) :
  integerValue (S754_finite s m e) = Some n ->
  exists a : Z, 0 < a /\ n = cond_Zopp s a
    /\ (0 <= e -> a = Zpos m * 2 ^ e) /\ (e < 0 -> Zpos m = a * 2 ^ (- e)).
Proof.
  unfold integerValue. destruct e as [ | p | p].
  - intros [= <-]. exists (Zpos m). rewrite Z.pow_0_r. repeat split; lia.
  - intros [= <-]. exists (Zpos m * 2 ^ Zpos p).
    pose proof (pow2_pos (Zpos p) ltac:(lia)). repeat split; nia.
  - destruct (Z.eqb_spec (Zpos m mod 2 ^ Zpos p) 0) as [Hm | ]; [ | discriminate].
    intros [= <-]. exists (Zpos m / 2 ^ Zpos p).
    pose proof (pow2_pos (Zpos p) ltac:(lia)) as Hp.
    pose proof (Z.div_mod (Zpos m) (2 ^ Zpos p) ltac:(lia)) as Hdm.
    rewrite Hm in Hdm. change (- Zneg p) with (Zpos p).
    repeat split; nia.
Qed.

Lemma integer_positive (x : number) (n : Z) :
  integerValue x = Some n -> (valuePositive x <-> 1 <= n).
Proof.
  destruct x as [s | s | | s m e]; try discriminate.
  - intros [= <-]. simpl. split; [contradiction | lia].
  - intros H. apply integerValue_finite in H as (a & Ha & -> & _).
    unfold valuePositive. destruct s; unfold cond_Zopp; split; intros;
      try reflexivity; try discriminate; lia.
Qed.

Lemma integer_le (x : number) (n k : Z) :
  integerValue x = Some n -> (valueLe x k <-> n <= k).
Proof.
  destruct x as [s | s | | s m e]; try discriminate.
  - intros [= <-]. reflexivity.
  - intros H. apply integerValue_finite in H as (a & Ha & -> & Hp & Hn).
    unfold valueLe. destruct (Z.leb_spec 0 e) as [He | He].
    + rewrite (Hp He). destruct s; unfold cond_Zopp;
        rewrite ?Z.mul_opp_l; reflexivity.
    + pose proof (pow2_pos (- e) ltac:(lia)) as Hpos. rewrite (Hn He).
      destruct s; unfold cond_Zopp; split; intros; nia.
Qed.

(** Shifting a non-negative mantissa right keeps it non-negative, so that
    rounding a positive integer never produces NaN. *)
Lemma shr_1_nonneg (r : shr_record) : 0 <= shr_m r -> 0 <= shr_m (shr_1 r).
Proof.
  destruct r as [m b c]. simpl.
  destruct m as [ | [p | p | ] | p]; simpl; lia.
Qed.

Lemma iter_shr_1_nonneg (p : positive) (r : shr_record) :
  0 <= shr_m r -> 0 <= shr_m (iter_pos shr_1 p r).
Proof.
  revert r. induction p as [p IH | p IH | ]; intros r Hr; simpl.
  - apply IH, IH, shr_1_nonneg, Hr.
  - apply IH, IH, Hr.
  - apply shr_1_nonneg, Hr.
Qed.

Lemma shr_nonneg (r : shr_record) (e n : Z) :
  0 <= shr_m r -> 0 <= shr_m (fst (shr r e n)).
Proof.
  intros Hr. destruct n as [ | p | p]; simpl; trivial.
  now apply iter_shr_1_nonneg.
Qed.

Lemma round_nearest_even_nonneg (m : Z) (l : location) :
  0 <= m -> 0 <= round_nearest_even m l.
Proof.
  intros Hm. destruct l as [ | [ | | ]]; simpl; try lia.
  destruct (Z.even m); lia.
Qed.

Lemma binary_round_aux_not_nan (s : bool) (m : positive) (e : Z) :
  binary_round_aux prec emax s (Zpos m) e loc_Exact <> S754_nan.
Proof.
  unfold binary_round_aux, shr_fexp.
  set (n1 := fexp prec emax _ - e).
  pose proof (shr_nonneg (shr_record_of_loc (Zpos m) loc_Exact) e n1
                ltac:(simpl; lia)) as H1.
  destruct (shr _ e n1) as [r1 e1]. simpl in H1.
  set (m1 := round_nearest_even _ _).
  assert (Hm1 : 0 <= m1) by (apply round_nearest_even_nonneg, H1).
  set (n2 := fexp prec emax _ - e1).
  pose proof (shr_nonneg (shr_record_of_loc m1 loc_Exact) e1 n2
                ltac:(simpl; lia)) as H2.
  destruct (shr _ e1 n2) as [r2 e2]. simpl in H2.
  destruct (shr_m r2) as [ | q | q]; [discriminate | | lia].
  destruct (e2 <=? emax - prec); discriminate.
Qed.

Lemma binary_round_not_nan (s : bool) (m : positive) :
  binary_round prec emax s m 0 <> S754_nan.
Proof.
  unfold binary_round.
  destruct (shl_align m 0 _) as [mz ez].
  apply binary_round_aux_not_nan.
Qed.

Lemma F_not_nan (z : Z) : isNaN (F z) = false.
Proof.
  unfold F, binary_normalize.
  destruct z as [ | p | p]; [reflexivity | | ].
  - pose proof (binary_round_not_nan false p) as H.
    destruct (binary_round prec emax false p 0); congruence || reflexivity.
  - pose proof (binary_round_not_nan true p) as H.
    destruct (binary_round prec emax true p 0); congruence || reflexivity.
Qed.

(** The range test accepts 𝔽(z) only for 1 <= z <= 10. *)
Lemma F_in_range (z : Z) :
  gt (F z) (F 0) && le (F z) (F 10) = true -> 1 <= z <= 10.
Proof.
  intros H. apply andb_prop in H as [Hg Hl].
  destruct (Z.lt_ge_cases (Z.abs z) (2 ^ 53)) as [Hb | Hb].
  - apply gt_zero_spec in Hg.
    apply (le_ten_spec _ (isDouble_F z Hb)) in Hl.
    pose proof (integerValue_F z Hb) as Hi.
    apply (integer_positive _ _ Hi) in Hg.
    apply (integer_le _ _ 10 Hi) in Hl. lia.
  - exfalso.
    assert (Hbig : forall s p, 2 ^ 53 <= Zpos p ->
      gt (binary_round prec emax s p 0) (F 0) = true ->
      le (binary_round prec emax s p 0) (F 10) = true -> False).
    { intros s p Hp Hg' Hl'.
      assert (Hd : 53 < Zpos (digits2_pos p)).
      { pose proof (digits2_upper p) as Hu.
        destruct (Z.lt_ge_cases 53 (Zpos (digits2_pos p))); [assumption | ].
        pose proof (pow2_le (Zpos (digits2_pos p)) 53 ltac:(lia)). lia. }
      pose proof (binary_round_big s p Hd) as Hs.
      rewrite ten_eq in Hl'. rewrite zero_eq in Hg'.
      destruct (binary_round prec emax s p 0) as [s' | s' | | s' m' e'].
      - discriminate Hg'.
      - destruct s'; discriminate.
      - discriminate Hg'.
      - destruct s'; [discriminate Hg' | ].
        unfold le, SFleb in Hl'. rewrite SFcompare_positive in Hl'.
        assert (E : (e' ?= -49) = Gt) by (apply Z.compare_gt_iff; lia).
        rewrite E in Hl'. discriminate Hl'. }
    unfold F, binary_normalize in Hg, Hl.
    destruct z as [ | p | p]; [ simpl in Hb; lia | | ];
      eapply Hbig; eauto.
Qed.

End Float.

Import Float.

(** ** Facts about [parseInt] and the printing of integers *)

Module Parse.

Ltac ncases :=
  repeat (match goal with
          | |- context [N.leb ?a ?b] => destruct (N.leb_spec a b)
          | |- context [N.ltb ?a ?b] => destruct (N.ltb_spec a b)
          | |- context [N.eqb ?a ?b] => destruct (N.eqb_spec a b)
          end;
          cbn [andb orb negb]; cbv beta iota);
  try reflexivity; try discriminate; try lia.

Lemma digitValue_decimal (c : code_unit) :
  isDecimalDigit c = true -> digitValue c = Some (c - 0x30)%N.
Proof. unfold isDecimalDigit, digitValue. ncases. Qed.

Lemma isRadixDigit_10 (c : code_unit) : isRadixDigit 10 c = isDecimalDigit c.
Proof. unfold isRadixDigit, isDecimalDigit, digitValue. ncases. Qed.

Lemma decimal_not_space (c : code_unit) :
  isDecimalDigit c = true -> isWhiteSpace c = false.
Proof. unfold isDecimalDigit, isWhiteSpace. ncases. Qed.

Lemma radixPrefix_decimal (s : jsstring) :
  Forall (fun c => isDecimalDigit c = true) (radixPrefix 10 s).
Proof.
  induction s as [ | c s IH]; simpl; [constructor | ].
  rewrite isRadixDigit_10.
  destruct (isDecimalDigit c) eqn:E; constructor; assumption.
Qed.

Lemma leadingDigits_radixPrefix (s : jsstring) :
  leadingDigits s = map (fun c => (c - 0x30)%N) (radixPrefix 10 s).
Proof.
  induction s as [ | c s IH]; simpl; [reflexivity | ].
  rewrite isRadixDigit_10.
  destruct (isDecimalDigit c); simpl; now rewrite ?IH.
Qed.

(** Horner's scheme of [radixValue] against the positional reading. *)
Lemma fold_base10 (ds : jsstring) (acc : N) :
  Forall (fun c => isDecimalDigit c = true) ds ->
  fold_left
    (fun a c => (a * 10 + match digitValue c with Some d => d | None => 0 end)%N)
    ds acc
  = (acc * 10 ^ N.of_nat (List.length ds)
     + base10 (map (fun c => (c - 0x30)%N) ds))%N.
Proof.
  unfold jsstring, code_unit in *. intros H. revert acc.
  induction H as [ | c ds Hc _ IH]; intros acc.
  - simpl. lia.
  - cbn [fold_left map base10 List.length]. rewrite IH.
    rewrite (digitValue_decimal c Hc), length_map.
    rewrite Nat2N.inj_succ, N.pow_succ_r'.
    generalize (c - 0x30)%N, (10 ^ N.of_nat (List.length ds))%N,
      (base10 (map (fun c => (c - 0x30)%N) ds)).
    intros d p b. ring.
Qed.

Lemma radixValue_base10 (s : jsstring) :
  radixValue 10 (radixPrefix 10 s) = base10 (leadingDigits s).
Proof.
  unfold radixValue.
  rewrite (fold_base10 _ 0%N (radixPrefix_decimal s)).
  now rewrite leadingDigits_radixPrefix.
Qed.

(** [parseInt] after its white space and sign have been set apart. *)
Lemma parseInt_afterSign (s : jsstring) :
  parseInt s =
  let '(R, rest) :=
    match snd (afterSign s) with
    | c0 :: c1 :: rest =>
        if ((c0 =? 0x30) && ((c1 =? 0x78) || (c1 =? 0x58)))%N
        then (16%N, rest) else (10%N, snd (afterSign s))
    | _ => (10%N, snd (afterSign s))
    end in
  match radixPrefix R rest with
  | [] => NaN
  | digits => signedNumber (fst (afterSign s)) (radixValue R digits)
  end.
Proof.
  unfold parseInt, afterSign, signedNumber.
  destruct (trimStart s) as [ | c rest]; [reflexivity | ].
  destruct (N.eqb_spec c 0x2D) as [-> | Hm].
  - reflexivity.
  - destruct (N.eqb_spec c 0x2B) as [-> | Hp]; reflexivity.
Qed.

Lemma parseInt_decimal (s : jsstring) :
  hexPrefixed s = false ->
  parseInt s =
  match leadingDecimal s with
  | None => NaN
  | Some (negative, v) => signedNumber negative v
  end.
Proof.
  intros Hh. rewrite parseInt_afterSign. unfold leadingDecimal.
  unfold hexPrefixed in Hh.
  destruct (afterSign s) as [negative body]. cbn [fst snd] in *.
  assert (E : match body with
              | c0 :: c1 :: rest =>
                  if ((c0 =? 0x30) && ((c1 =? 0x78) || (c1 =? 0x58)))%N
                  then (16%N, rest) else (10%N, body)
              | _ => (10%N, body)
              end = (10%N, body)).
  { destruct body as [ | c0 [ | c1 rest]]; try reflexivity. now rewrite Hh. }
  rewrite E, leadingDigits_radixPrefix.
  pose proof (radixPrefix_decimal body) as Hd.
  destruct (radixPrefix 10 body) as [ | c ds]; [reflexivity | ].
  cbn [map]. f_equal. unfold radixValue.
  rewrite (fold_base10 _ 0%N Hd). reflexivity.
Qed.

(** Texts made of decimal digits only. *)
Lemma radixPrefix_all (ds : jsstring) :
  Forall (fun c => isDecimalDigit c = true) ds -> radixPrefix 10 ds = ds.
Proof.
  induction 1 as [ | c ds Hc _ IH]; simpl; [reflexivity | ].
  now rewrite isRadixDigit_10, Hc, IH.
Qed.

Lemma leadingDecimal_digits (negative : bool) (ds : jsstring) :
  ds <> [] -> Forall (fun c => isDecimalDigit c = true) ds ->
  let s := (if negative then str "-" else []) ++ ds in
  hexPrefixed s = false
  /\ leadingDecimal s = Some (negative, radixValue 10 ds).
Proof.
  intros Hne Hd s.
  assert (Ha : afterSign s = (negative, ds)).
  { subst s. destruct ds as [ | c ds]; [congruence | ].
    pose proof (Forall_inv Hd) as Hc. cbv beta in Hc.
    unfold afterSign. destruct negative.
    - reflexivity.
    - cbn [app trimStart]. rewrite (decimal_not_space c Hc).
      unfold isDecimalDigit in Hc. revert Hc. ncases. }
  unfold hexPrefixed, leadingDecimal. rewrite Ha. cbn [snd]. split.
  - destruct ds as [ | c0 [ | c1 ds]]; try reflexivity.
    pose proof (Forall_inv (Forall_inv_tail Hd)) as Hc. cbv beta in Hc.
    unfold isDecimalDigit in Hc. revert Hc. ncases.
  - rewrite <- (radixPrefix_all ds Hd) at 2.
    rewrite radixValue_base10.
    destruct ds as [ | c ds]; [congruence | ].
    pose proof (Forall_inv Hd) as Hc. cbv beta in Hc.
    cbn [leadingDigits]. rewrite Hc. reflexivity.
Qed.

(** The digits that [Number::toString] prints read back as the integer. *)
Lemma uint_decimal (d : Decimal.uint) :
  Forall (fun c => isDecimalDigit c = true) (uintCodeUnits d).
Proof. induction d; simpl; constructor; trivial. Qed.

Lemma fold_uint (d : Decimal.uint) (acc : positive) :
  fold_left
    (fun a c => (a * 10 + match digitValue c with Some d => d | None => 0 end)%N)
    (uintCodeUnits d) (Npos acc)
  = Npos (Pos.of_uint_acc d acc).
Proof.
  revert acc. induction d; intros acc; cbn [uintCodeUnits fold_left Pos.of_uint_acc];
    [reflexivity
    | rewrite <- IHd; f_equal;
      match goal with
      | |- context [digitValue ?c] =>
          let v := eval vm_compute in (digitValue c) in
          change (digitValue c) with v
      end; cbv beta iota; lia ..].
Qed.

Lemma radixValue_uint (d : Decimal.uint) :
  radixValue 10 (uintCodeUnits d) = Pos.of_uint d.
Proof.
  unfold radixValue.
  induction d; cbn [uintCodeUnits fold_left Pos.of_uint];
    [reflexivity | exact IHd | rewrite <- fold_uint; reflexivity ..].
Qed.

Lemma radixValue_decimalDigits (n : N) : radixValue 10 (decimalDigits n) = n.
Proof.
  unfold decimalDigits. rewrite radixValue_uint.
  apply DecimalN.Unsigned.of_to.
Qed.

Lemma decimalDigits_nonempty (n : N) : decimalDigits n <> [].
Proof.
  unfold decimalDigits. destruct n as [ | p]; [discriminate | ].
  pose proof (DecimalPos.Unsigned.to_uint_nonnil p) as H.
  simpl. destruct (Pos.to_uint p); [congruence | discriminate ..].
Qed.

Lemma parseInt_decimalDigits (negative : bool) (n : N) :
  parseInt ((if negative then str "-" else []) ++ decimalDigits n)
  = signedNumber negative n.
Proof.
  destruct (leadingDecimal_digits negative (decimalDigits n)
              (decimalDigits_nonempty n) (uint_decimal _)) as [Hh Hl].
  rewrite (parseInt_decimal _ Hh), Hl, radixValue_decimalDigits.
  reflexivity.
Qed.

(** The base-16 reading, for the texts with the prefix. *)
Lemma hexDigit_spec (c : code_unit) :
  match hexDigit c with
  | Some d => isRadixDigit 16 c = true /\ digitValue c = Some d
  | None => isRadixDigit 16 c = false
  end.
Proof.
  unfold hexDigit, isRadixDigit, digitValue.
  ncases; split; try reflexivity; try (f_equal; lia); ncases.
Qed.

Lemma leadingHexDigits_radixPrefix (s : jsstring) :
  leadingHexDigits s
  = map (fun c => match digitValue c with Some d => d | None => 0%N end)
      (radixPrefix 16 s).
Proof.
  induction s as [ | c s IH]; simpl; [reflexivity | ].
  pose proof (hexDigit_spec c) as H.
  destruct (hexDigit c) as [d | ].
  - destruct H as [Hr Hd]. rewrite Hr. cbn [map]. now rewrite Hd, IH.
  - now rewrite H.
Qed.

Lemma fold_base16 (ds : jsstring) (acc : N) :
  fold_left
    (fun a c => (a * 16 + match digitValue c with Some d => d | None => 0 end)%N)
    ds acc
  = (acc * 16 ^ N.of_nat (List.length ds)
     + base16
         (map (fun c => match digitValue c with Some d => d | None => 0%N end)
            ds))%N.
Proof.
  unfold jsstring, code_unit in *. revert acc.
  induction ds as [ | c ds IH]; intros acc.
  - simpl. lia.
  - cbn [fold_left map base16 List.length]. rewrite IH, length_map.
    rewrite Nat2N.inj_succ, N.pow_succ_r'.
    generalize (match digitValue c with Some d => d | None => 0%N end),
      (16 ^ N.of_nat (List.length ds))%N,
      (base16
         (map (fun c => match digitValue c with Some d => d | None => 0%N end)
            ds)).
    intros d p b. ring.
Qed.

Lemma parseInt_base16 (s : jsstring) :
  hexPrefixed s = true ->
  parseInt s =
  match leadingHexadecimal s with
  | None => NaN
  | Some (negative, v) => signedNumber negative v
  end.
Proof.
  intros Hh. rewrite parseInt_afterSign. unfold leadingHexadecimal.
  unfold hexPrefixed in Hh.
  destruct (afterSign s) as [negative body]. cbn [fst snd] in *.
  destruct body as [ | c0 [ | c1 digits]]; try discriminate Hh.
  rewrite Hh, leadingHexDigits_radixPrefix.
  destruct (radixPrefix 16 digits) as [ | c ds]; [reflexivity | ].
  cbn [map]. f_equal. unfold radixValue.
  rewrite (fold_base16 (c :: ds) 0%N). reflexivity.
Qed.

End Parse.

Import Parse.

(** ** Facts about the two stages and the loop *)

Module LoopFacts.

(** What the pipeline lets through: exactly the integers from 1 to 10. *)
Lemma parseInt_shape (s : jsstring) :
  parseInt s = NaN \/ exists negative v, parseInt s = signedNumber negative v.
Proof.
  rewrite parseInt_afterSign.
  destruct (match snd (afterSign s) with
            | c0 :: c1 :: rest =>
                if ((c0 =? 0x30) && ((c1 =? 0x78) || (c1 =? 0x58)))%N
                then (16%N, rest) else (10%N, snd (afterSign s))
            | _ => (10%N, snd (afterSign s))
            end) as [R rest].
  destruct (radixPrefix R rest) as [ | c ds]; [now left | right; eauto].
Qed.

Lemma pipeline_accepts (input : jsstring) (s : SanitizedNumber) :
  sanitizedNumber (unsanitizedNumber input) = Some s ->
  exists n, 1 <= n <= 10 /\ s = {| sanitized_value := F n |}.
Proof.
  unfold unsanitizedNumber, sanitizedNumber.
  destruct (isNaN (parseInt input)); [discriminate | ].
  cbn [unsanitized_value].
  destruct (gt (parseInt input) (F 0) && le (parseInt input) (F 10)) eqn:Hr;
    [ | discriminate].
  intros [= <-].
  destruct (parseInt_shape input) as [E | (negative & v & E)]; rewrite E in *.
  - discriminate Hr.
  - unfold signedNumber in *. destruct (v =? 0)%N.
    + destruct negative; discriminate Hr.
    + eexists; split; [apply F_in_range, Hr | reflexivity].
Qed.

Lemma small_cases (n : Z) (P : Z -> Prop) :
  1 <= n <= 10 ->
  P 1 -> P 2 -> P 3 -> P 4 -> P 5 -> P 6 -> P 7 -> P 8 -> P 9 -> P 10 -> P n.
Proof.
  intros Hn.
  assert (H : n = 1 \/ n = 2 \/ n = 3 \/ n = 4 \/ n = 5 \/ n = 6 \/ n = 7
              \/ n = 8 \/ n = 9 \/ n = 10) by lia.
  intuition (subst; assumption).
Qed.

Lemma numberToString_small (sd : number -> jsstring) (n : Z) :
  1 <= n <= 10 -> numberToString sd (F n) = decimalDigits (Z.to_N n).
Proof.
  intros Hn. pattern n. apply (small_cases n); trivial; reflexivity.
Qed.

(** A non-zero integer below 2^53 in magnitude prints as its sign and the
    decimal digits of its magnitude. *)
Lemma numberToString_F (sd : number -> jsstring) (n : Z) :
  n <> 0 -> Z.abs n < 2 ^ 53 ->
  numberToString sd (F n)
  = (if n <? 0 then str "-" else []) ++ decimalDigits (Z.to_N (Z.abs n)).
Proof.
  intros Hz Hb.
  destruct (F_exact n Hz Hb) as (m & e & HF & Hm & He & _).
  rewrite HF. unfold numberToString.
  rewrite (integerValue_exact false m e (Z.abs n)) by lia.
  cbn [cond_Zopp].
  destruct (Z.ltb_spec (Z.abs n) 9007199254740992) as [_ | Hge];
    [reflexivity | ].
  rewrite pow2_53 in Hb. lia.
Qed.

Lemma kind_invalid_not_sanitized :
  jsstring_eqb (str "invalid-number") (str "sanitized-number") = false.
Proof. vm_compute. reflexivity. Qed.

Lemma kind_sanitized :
  jsstring_eqb (str "sanitized-number") (str "sanitized-number") = true.
Proof. vm_compute. reflexivity. Qed.

Section Run.

Variable sd : number -> jsstring.

(** The two ways an iteration on a text that was read can go. *)
Lemma iteration_rejected (input : jsstring) (c : config) :
  finalNumber c = Invalid mkInvalidNumber ->
  sanitizedNumber (unsanitizedNumber input) = None ->
  iteration sd (Resolved input) c =
  {| pc := InLoop;
     finalNumber := finalNumber c;
     trace := trace c ++ [Await (Resolved input); showError input] |}.
Proof.
  intros Hf Hn. unfold iteration. rewrite Hn. cbn [finalNumber trace].
  rewrite Hf. cbn [kind]. rewrite kind_invalid_not_sanitized. reflexivity.
Qed.

Lemma iteration_accepted (input : jsstring) (c : config) (s : SanitizedNumber) :
  sanitizedNumber (unsanitizedNumber input) = Some s ->
  iteration sd (Resolved input) c =
  {| pc := Finished;
     finalNumber := Sanitized s;
     trace := trace c ++ [Await (Resolved input);
                          ConsoleLog (successMessage sd (Sanitized s))] |}.
Proof.
  intros Hs. unfold iteration. rewrite Hs. cbn [finalNumber trace kind].
  rewrite kind_sanitized. cbn [negb]. now rewrite <- app_assoc.
Qed.

Lemma run_stopped (reads : list settled) (c : config) :
  pc c <> InLoop -> run sd reads c = c.
Proof.
  intros H. destruct reads as [ | r reads]; [reflexivity | ].
  simpl. destruct (pc c); congruence.
Qed.

Lemma run_app (reads1 reads2 : list settled) (c : config) :
  run sd (reads1 ++ reads2) c = run sd reads2 (run sd reads1 c).
Proof.
  revert c. induction reads1 as [ | r reads1 IH]; intros c; [reflexivity | ].
  cbn [app run].
  destruct (pc c) eqn:E; [apply IH | | ];
    symmetry; apply run_stopped; congruence.
Qed.

Lemma run_reachable (reads : list settled) (c : config) :
  reachable sd c -> reachable sd (run sd reads c).
Proof.
  revert c. induction reads as [ | r reads IH]; intros c Hc; [exact Hc | ].
  simpl. destruct (pc c) eqn:E; try exact Hc.
  apply IH. eapply reachable_step; [exact Hc | ]. now constructor.
Qed.

Lemma main_reachable (reads : list settled) : reachable sd (main sd reads).
Proof. apply run_reachable. constructor. Qed.

(** The invariant of the configurations, by control point. *)
Lemma reachable_shape (c : config) :
  reachable sd c ->
  match pc c with
  | InLoop | Crashed _ => finalNumber c = Invalid mkInvalidNumber
  | Finished =>
      exists n tr,
        1 <= n <= 10
        /\ finalNumber c = Sanitized {| sanitized_value := F n |}
        /\ trace c =
           tr ++ [ConsoleLog (str "You did what I wanted and gave me "
                              ++ decimalDigits (Z.to_N n) ++ str "!")]
  end.
Proof.
  induction 1 as [ | c c' _ IH Hstep]; [reflexivity | ].
  destruct Hstep as [r c Hin]. rewrite Hin in IH.
  destruct r as [input | e]; [ | exact IH].
  destruct (sanitizedNumber (unsanitizedNumber input)) as [s | ] eqn:Hs.
  - rewrite (iteration_accepted input c s Hs). cbn [pc finalNumber trace].
    destruct (pipeline_accepts input s Hs) as (n & Hn & ->).
    exists n, (trace c ++ [Await (Resolved input)]). repeat split; try lia.
    rewrite <- app_assoc. unfold successMessage. cbn [value sanitized_value].
    now rewrite (numberToString_small sd n Hn).
  - rewrite (iteration_rejected input c IH Hs). exact IH.
Qed.

End Run.

End LoopFacts.

Import LoopFacts.

(** ** The model on concrete inputs *)

Module Examples.

Example parseInt_plain : parseInt (str "42") = F 42.
Proof. reflexivity. Qed.

Example parseInt_trailing : parseInt (str "  -7 apples") = F (-7).
Proof. reflexivity. Qed.

Example parseInt_letters : parseInt (str "abc") = NaN.
Proof. reflexivity. Qed.

Example parseInt_empty : parseInt [] = NaN.
Proof. reflexivity. Qed.

Example parseInt_hexadecimal : parseInt (str "0x1F") = F 31.
Proof. reflexivity. Qed.

Example parseInt_bare_prefix : parseInt (str "0x") = NaN.
Proof. reflexivity. Qed.

Example parseInt_negative_zero : parseInt (str "-0") = S754_zero true.
Proof. reflexivity. Qed.

Example parseInt_rounds :
  parseInt (str "9007199254740993") = F 9007199254740992.
Proof. vm_compute. reflexivity. Qed.

Example parseInt_line : parseInt (str "7" ++ [LF]) = F 7.
Proof. reflexivity. Qed.

Example toString_negative :
  numberToString noShortestDigits (F (-120)) = str "-120".
Proof. reflexivity. Qed.

Example sanitized_five :
  sanitizedNumber (unsanitizedNumber (str "5"))
  = Some {| sanitized_value := F 5 |}.
Proof. reflexivity. Qed.

(** Scenarios A, C, D and E of the specification, on the loop of the async
    function, each text being the result of one read. *)
Example scenario_A :
  main noShortestDigits [Resolved (str "5")]
  = {| pc := Finished;
       finalNumber := Sanitized {| sanitized_value := F 5 |};
       trace := [ConsoleLog (str "Give me a number between 1 and 10:");
                 Await (Resolved (str "5"));
                 ConsoleLog (str "You did what I wanted and gave me 5!")] |}.
Proof. vm_compute. reflexivity. Qed.

Example scenario_C :
  main noShortestDigits [Resolved (str "abc"); Resolved (str "3")]
  = {| pc := Finished;
       finalNumber := Sanitized {| sanitized_value := F 3 |};
       trace := [ConsoleLog (str "Give me a number between 1 and 10:");
                 Await (Resolved (str "abc"));
                 ConsoleError (str "abc is not what I asked for.");
                 Await (Resolved (str "3"));
                 ConsoleLog (str "You did what I wanted and gave me 3!")] |}.
Proof. vm_compute. reflexivity. Qed.

Example scenario_D :
  trace (main noShortestDigits [Resolved (str "10")])
  = [ConsoleLog (str "Give me a number between 1 and 10:");
     Await (Resolved (str "10"));
     ConsoleLog (str "You did what I wanted and gave me 10!")].
Proof. vm_compute. reflexivity. Qed.

Example scenario_E :
  trace (main noShortestDigits [Resolved (str "1")])
  = [ConsoleLog (str "Give me a number between 1 and 10:");
     Await (Resolved (str "1"));
     ConsoleLog (str "You did what I wanted and gave me 1!")].
Proof. vm_compute. reflexivity. Qed.

(** A read that has not settled: nothing follows the prompt. *)
Example pending_read : main noShortestDigits [] = initial.
Proof. reflexivity. Qed.

(** The first of the typing checks throws. *)
Example typingChecks_throw :
  typingChecks = inl (ReferenceError (str "testUnsanitized")).
Proof. reflexivity. Qed.

End Examples.

(** ** The claims of the specification *)

(** *** The sanitization stage *)

(** C5.  [sanitizeNumber] applied to the absent signal returns the absent
    signal: the [null] test comes first and no range test is evaluated. *)
Theorem sanitizedNumber_null : sanitizedNumber None = None.
Proof. reflexivity. Qed.

(** C4.  On a number that is an integer [n], [sanitizeNumber] returns a
    SanitizedNumber wrapping that same number when [1 <= n <= 10] and the
    absent signal when [n < 1] or [n > 10]; 0 and 11 are rejected, 1 and 10
    are accepted. *)
Theorem sanitizedNumber_range (x : number) (n : Z) :
  isDouble x = true -> integerValue x = Some n ->
  (1 <= n <= 10 ->
   sanitizedNumber (Some {| unsanitized_value := x |})
   = Some {| sanitized_value := x |})
  /\ (n < 1 \/ n > 10 ->
      sanitizedNumber (Some {| unsanitized_value := x |}) = None)
  /\ sanitizedNumber (Some {| unsanitized_value := F 0 |}) = None
  /\ sanitizedNumber (Some {| unsanitized_value := F 11 |}) = None
  /\ sanitizedNumber (Some {| unsanitized_value := F 1 |})
     = Some {| sanitized_value := F 1 |}
  /\ sanitizedNumber (Some {| unsanitized_value := F 10 |})
     = Some {| sanitized_value := F 10 |}.
Proof.
  intros Hv Hi.
  assert (Hr : gt x (F 0) && le x (F 10) = true <-> 1 <= n <= 10).
  { rewrite andb_true_iff, gt_zero_spec, (le_ten_spec x Hv).
    rewrite (integer_positive x n Hi), (integer_le x n 10 Hi). reflexivity. }
  unfold sanitizedNumber at 1 2. cbn [unsanitized_value].
  destruct (gt x (F 0) && le x (F 10)).
  - repeat split; try reflexivity. intros Hn.
    assert (1 <= n <= 10) by now apply Hr. lia.
  - repeat split; try reflexivity. intros Hn.
    assert (false = true) by now apply Hr. discriminate.
Qed.

Lemma sanitizedNumber_range_witness :
  sanitizedNumber (Some {| unsanitized_value := F 5 |})
  = Some {| sanitized_value := F 5 |}.
Proof.
  apply (sanitizedNumber_range (F 5) 5); [reflexivity | reflexivity | lia].
Defined.

(** C3, as the specification states it, fails: 2.5 is not an integer, and
    [sanitizeNumber] returns it wrapped as a SanitizedNumber. *)
Lemma sanitizedNumber_keeps_fraction :
  isDouble twoAndAHalf = true
  /\ integerValue twoAndAHalf = None
  /\ sanitizedNumber (Some {| unsanitized_value := twoAndAHalf |})
     = Some {| sanitized_value := twoAndAHalf |}.
Proof. repeat split. Qed.

(** C3, amended.  The range test is the only test: a number that is not an
    integer (NaN and the infinities included) is rejected exactly when it
    does not satisfy [0 < v <= 10], and is otherwise returned wrapped as a
    SanitizedNumber. *)
Theorem sanitizedNumber_fraction (v : number) :
  isDouble v = true -> integerValue v = None ->
  (sanitizedNumber (Some {| unsanitized_value := v |}) = None
   <-> ~ (valuePositive v /\ valueLe v 10))
  /\ (valuePositive v -> valueLe v 10 ->
      sanitizedNumber (Some {| unsanitized_value := v |})
      = Some {| sanitized_value := v |}).
Proof.
  intros Hv _.
  assert (Hr : gt v (F 0) && le v (F 10) = true
               <-> valuePositive v /\ valueLe v 10).
  { now rewrite andb_true_iff, gt_zero_spec, (le_ten_spec v Hv). }
  unfold sanitizedNumber. cbn [unsanitized_value].
  destruct (gt v (F 0) && le v (F 10)).
  - split; [ | reflexivity].
    split; [discriminate | ]. intros Hn. exfalso. apply Hn. now apply Hr.
  - split.
    + split; [ | reflexivity]. intros _ Hn.
      assert (false = true) by now apply Hr. discriminate.
    + intros Hp Hl. assert (false = true) by (apply Hr; now split).
      discriminate.
Qed.

Lemma sanitizedNumber_fraction_witness :
  sanitizedNumber (Some {| unsanitized_value := twoAndAHalf |})
  = Some {| sanitized_value := twoAndAHalf |}.
Proof.
  apply (sanitizedNumber_fraction twoAndAHalf).
  - reflexivity.
  - reflexivity.
  - reflexivity.
  - unfold valueLe, twoAndAHalf. simpl (0 <=? -51). cbv iota.
    unfold cond_Zopp. vm_compute. discriminate.
Defined.

(** *** The parsing stage *)

(** C2, as the specification states it, fails: the text [0x10] leads with
    the base-10 numeral 0, and [parseNumber] returns 16. *)
Lemma parseNumber_reads_hexadecimal :
  unsanitizedNumber (str "0x10") = Some {| unsanitized_value := F 16 |}
  /\ integerValue (F 16) = Some 16
  /\ leadingDecimal (str "0x10") = Some (false, 0%N)
  /\ ~ parsesLeadingDecimal (str "0x10").
Proof.
  assert (E : unsanitizedNumber (str "0x10")
              = Some {| unsanitized_value := F 16 |})
    by (vm_compute; reflexivity).
  split; [exact E | ].
  split; [vm_compute; reflexivity | ].
  split; [vm_compute; reflexivity | ].
  intros [_ H].
  destruct (H _ E) as (negative & v & Hl & Hi).
  vm_compute in Hl. injection Hl as <- <-.
  vm_compute in Hi. discriminate Hi.
Qed.

(** C2, amended.  On a text in which no [0x] or [0X] follows the leading
    white space and sign, [parseNumber] returns the absent signal when no
    decimal digit leads and otherwise wraps the number nearest to the signed
    base-10 value of the leading digits, the sign kept on zero.  On a text
    with that prefix it does the same with the hexadecimal digits that
    follow the prefix, read in base 16.  Below 2^53 the number wrapped is
    the value itself. *)
Theorem parseNumber_decimal (s : jsstring) :
  (hexPrefixed s = false ->
   unsanitizedNumber s =
   match leadingDecimal s with
   | None => None
   | Some (negative, v) =>
       Some {| unsanitized_value := signedNumber negative v |}
   end)
  /\ (hexPrefixed s = true ->
      unsanitizedNumber s =
      match leadingHexadecimal s with
      | None => None
      | Some (negative, v) =>
          Some {| unsanitized_value := signedNumber negative v |}
      end)
  /\ (forall negative v,
        (v < 2 ^ 53)%N ->
        integerValue (signedNumber negative v)
        = Some (cond_Zopp negative (Z.of_N v))).
Proof.
  assert (Hn : forall negative v,
            isNaN (signedNumber negative v) = false).
  { intros negative v. unfold signedNumber.
    destruct (v =? 0)%N; [reflexivity | apply F_not_nan]. }
  split; [ | split].
  - intros Hh. unfold unsanitizedNumber. rewrite (parseInt_decimal s Hh).
    destruct (leadingDecimal s) as [[negative v] | ]; [ | reflexivity].
    now rewrite Hn.
  - intros Hh. unfold unsanitizedNumber. rewrite (parseInt_base16 s Hh).
    destruct (leadingHexadecimal s) as [[negative v] | ]; [ | reflexivity].
    now rewrite Hn.
  - intros negative v Hv. unfold signedNumber.
    destruct (N.eqb_spec v 0) as [-> | Hz].
    + now destruct negative.
    + apply integerValue_F.
      assert (Z.of_N v < 2 ^ 53).
      { change (2 ^ 53) with (Z.of_N (2 ^ 53)). lia. }
      destruct negative; simpl; lia.
Qed.

Lemma parseNumber_decimal_witness :
  unsanitizedNumber (str " -42px")
  = match leadingDecimal (str " -42px") with
    | None => None
    | Some (negative, v) =>
        Some {| unsanitized_value := signedNumber negative v |}
    end
  /\ unsanitizedNumber (str "+0X1f.")
     = match leadingHexadecimal (str "+0X1f.") with
       | None => None
       | Some (negative, v) =>
           Some {| unsanitized_value := signedNumber negative v |}
       end.
Proof.
  split.
  - apply (parseNumber_decimal (str " -42px")). reflexivity.
  - apply (parseNumber_decimal (str "+0X1f.")). reflexivity.
Defined.

(** C8.  For every integer [n] of the safe range of the language, from
    -(2^53 - 1) to 2^53 - 1, [parseNumber] applied to the decimal rendering
    of [n] returns an UnsanitizedNumber wrapping the number [n], negative
    and out-of-range integers included. *)
Theorem parseNumber_toString (sd : number -> jsstring) (n : Z) :
  - (2 ^ 53 - 1) <= n <= 2 ^ 53 - 1 ->
  unsanitizedNumber (numberToString sd (F n))
  = Some {| unsanitized_value := F n |}
  /\ integerValue (F n) = Some n.
Proof.
  intros Hn. assert (Hb : Z.abs n < 2 ^ 53) by lia.
  split; [ | apply integerValue_F, Hb].
  destruct (Z.eq_dec n 0) as [-> | Hz]; [reflexivity | ].
  rewrite (numberToString_F sd n Hz Hb).
  unfold unsanitizedNumber. rewrite parseInt_decimalDigits.
  unfold signedNumber.
  destruct (N.eqb_spec (Z.to_N (Z.abs n)) 0) as [E | _]; [lia | ].
  replace (cond_Zopp (n <? 0) (Z.of_N (Z.to_N (Z.abs n)))) with n
    by (destruct (Z.ltb_spec n 0); simpl; lia).
  now rewrite F_not_nan.
Qed.

Lemma parseNumber_toString_witness :
  unsanitizedNumber (numberToString noShortestDigits (F (-42)))
  = Some {| unsanitized_value := F (-42) |}
  /\ integerValue (F (-42)) = Some (-42).
Proof.
  apply (parseNumber_toString noShortestDigits (-42)).
  rewrite pow2_53. lia.
Defined.

(** *** The two stages together *)

(** C9.  A SanitizedNumber that the pipeline produced is produced again,
    equal, when the decimal rendering of the number it wraps is fed back
    through [parseNumber] then [sanitizeNumber]. *)
Theorem pipeline_idempotent (sd : number -> jsstring) (input : jsstring)
    (s : SanitizedNumber) :
  sanitizedNumber (unsanitizedNumber input) = Some s ->
  sanitizedNumber (unsanitizedNumber (numberToString sd (sanitized_value s)))
  = Some s.
Proof.
  intros Hs. destruct (pipeline_accepts input s Hs) as (n & Hn & ->).
  cbn [sanitized_value]. pattern n.
  apply (small_cases n); trivial; reflexivity.
Qed.

Lemma pipeline_idempotent_witness :
  sanitizedNumber
    (unsanitizedNumber
       (numberToString noShortestDigits
          (sanitized_value {| sanitized_value := F 7 |})))
  = Some {| sanitized_value := F 7 |}.
Proof.
  apply (pipeline_idempotent noShortestDigits (str "7")). reflexivity.
Defined.

(** *** The interaction loop *)

(** C7, as the specification states it, fails: the typed line 11, which
    ends with its line feed, is turned down, and its one diagnostic prints
    as two lines. *)
Lemma rejected_line_prints_two_lines :
  sanitizedNumber (unsanitizedNumber (str "11" ++ [LF])) = None
  /\ iteration noShortestDigits (Resolved (str "11" ++ [LF])) initial
     = {| pc := InLoop;
          finalNumber := Invalid mkInvalidNumber;
          trace := [ConsoleLog (str "Give me a number between 1 and 10:");
                    Await (Resolved (str "11" ++ [LF]));
                    ConsoleError
                      (str "11" ++ [LF] ++ str " is not what I asked for.")] |}
  /\ printedLines (str "11" ++ [LF] ++ str " is not what I asked for.")
     = 2%nat.
Proof. repeat split. Qed.

(** C7, amended.  A rejected attempt emits exactly one diagnostic on the
    error channel, the raw text followed by the fixed wording, whether the
    parsing stage or the range test rejected it; the loop then awaits the
    next read.  The raw text is echoed as it is: the diagnostic prints one
    line, and one more for each line feed in the raw text. *)
Theorem rejected_attempt (sd : number -> jsstring) (c : config)
    (input : jsstring) :
  reachable sd c -> pc c = InLoop ->
  unsanitizedNumber input = None
  \/ (exists u, unsanitizedNumber input = Some u
                /\ sanitizedNumber (Some u) = None) ->
  iteration sd (Resolved input) c =
  {| pc := InLoop;
     finalNumber := finalNumber c;
     trace := trace c
              ++ [Await (Resolved input);
                  ConsoleError (input ++ str " is not what I asked for.")] |}
  /\ printedLines (input ++ str " is not what I asked for.")
     = S (count_occ N.eq_dec input LF).
Proof.
  intros Hc Hin Hrej. split.
  - pose proof (reachable_shape sd c Hc) as Hf. rewrite Hin in Hf.
    apply (iteration_rejected sd input c Hf).
    destruct Hrej as [-> | (u & -> & Hu)]; [reflexivity | exact Hu].
  - unfold printedLines. rewrite count_occ_app. f_equal.
    change (count_occ N.eq_dec (str " is not what I asked for.") LF)
      with 0%nat.
    apply Nat.add_0_r.
Qed.

Lemma rejected_attempt_witness :
  iteration noShortestDigits (Resolved (str "11")) (initial) =
  {| pc := InLoop;
     finalNumber := finalNumber initial;
     trace := trace initial
              ++ [Await (Resolved (str "11"));
                  ConsoleError (str "11" ++ str " is not what I asked for.")] |}
  /\ printedLines (str "11" ++ str " is not what I asked for.")
     = S (count_occ N.eq_dec (str "11") LF).
Proof.
  apply (rejected_attempt noShortestDigits initial (str "11")).
  - apply reachable_initial.
  - reflexivity.
  - right. exists {| unsanitized_value := F 11 |}. split; reflexivity.
Defined.

(** C10.  In every configuration the program reaches, [finalNumber] is the
    invalid placeholder or a SanitizedNumber wrapping an integer from 1 to
    10, never an UnsanitizedNumber; a step leaves it as it is or replaces it
    by the record [sanitizedNumber] returned; the loop has been left exactly
    when its kind is [sanitized-number], and the success message then
    reports an integer from 1 to 10. *)
Theorem finalNumber_invariant (sd : number -> jsstring) (c : config) :
  reachable sd c ->
  (finalNumber c = Invalid mkInvalidNumber
   \/ exists s n,
        finalNumber c = Sanitized s
        /\ integerValue (sanitized_value s) = Some n /\ 1 <= n <= 10)
  /\ (forall u, finalNumber c <> Unsanitized u)
  /\ (forall c', step sd c c' ->
        finalNumber c' = finalNumber c
        \/ exists input s,
             sanitizedNumber (unsanitizedNumber input) = Some s
             /\ finalNumber c' = Sanitized s)
  /\ (pc c = Finished <-> kind (finalNumber c) = str "sanitized-number")
  /\ (pc c = Finished ->
      exists n tr,
        1 <= n <= 10
        /\ value (finalNumber c) = Some (F n)
        /\ trace c =
           tr ++ [ConsoleLog (str "You did what I wanted and gave me "
                              ++ decimalDigits (Z.to_N n) ++ str "!")]).
Proof.
  intros Hc. pose proof (reachable_shape sd c Hc) as Hs.
  assert (Hshape :
    (pc c <> Finished /\ finalNumber c = Invalid mkInvalidNumber)
    \/ (pc c = Finished /\ exists n tr, 1 <= n <= 10
        /\ finalNumber c = Sanitized {| sanitized_value := F n |}
        /\ trace c =
           tr ++ [ConsoleLog (str "You did what I wanted and gave me "
                              ++ decimalDigits (Z.to_N n) ++ str "!")])).
  { destruct (pc c); [left | right | left]; split;
      try assumption; try discriminate; reflexivity. }
  clear Hs. split; [ | split; [ | split; [ | split]]].
  - destruct Hshape as [[_ Hf] | [_ (n & tr & Hn & Hf & _)]]; [now left | ].
    right. exists {| sanitized_value := F n |}, n.
    repeat split; try lia; try assumption.
    apply integerValue_F. rewrite pow2_53. lia.
  - intros u.
    destruct Hshape as [[_ Hf] | [_ (n & tr & _ & Hf & _)]];
      rewrite Hf; discriminate.
  - intros c' Hstep. destruct Hstep as [r c Hin].
    destruct Hshape as [[_ Hf] | [Hfin _]]; [ | congruence].
    destruct r as [input | e]; [ | now left].
    destruct (sanitizedNumber (unsanitizedNumber input)) as [s | ] eqn:E.
    + right. exists input, s. split; [exact E | ].
      now rewrite (iteration_accepted sd input c s E).
    + left. now rewrite (iteration_rejected sd input c Hf E).
  - destruct Hshape as [[Hn Hf] | [Hfin (n & tr & _ & Hf & _)]]; rewrite Hf.
    + split; [congruence | ]. intros E. vm_compute in E. discriminate E.
    + split; [reflexivity | intros _; exact Hfin].
  - intros Hfin.
    destruct Hshape as [[Hn _] | [_ (n & tr & Hn & Hf & Ht)]]; [congruence | ].
    exists n, tr. rewrite Hf. repeat split; try lia; assumption.
Qed.

Lemma finalNumber_invariant_witness :
  pc (main noShortestDigits [Resolved (str "0"); Resolved (str "7")])
  = Finished
  <-> kind (finalNumber
              (main noShortestDigits [Resolved (str "0"); Resolved (str "7")]))
      = str "sanitized-number".
Proof.
  apply (finalNumber_invariant noShortestDigits
           (main noShortestDigits [Resolved (str "0"); Resolved (str "7")])).
  apply main_reachable.
Defined.

(** C1, as the specification states it, fails.  Run as it is written, the
    module throws at its first typing check while the first read is
    pending: nothing but the prompt is printed, whatever the three reads
    would have given.  And the loop does not acquire its input line by
    line: a read that resolves with the three lines together is one
    attempt, with one diagnostic echoing the whole text. *)
Lemma three_lines_are_one_read :
  execute noShortestDigits
    [Resolved (str "0"); Resolved (str "11"); Resolved (str "7")]
  = Uncaught (ReferenceError (str "testUnsanitized"))
      [ConsoleLog (str "Give me a number between 1 and 10:")]
  /\ main noShortestDigits [Resolved threeLinesText]
     = {| pc := InLoop;
          finalNumber := Invalid mkInvalidNumber;
          trace := [ConsoleLog (str "Give me a number between 1 and 10:");
                    Await (Resolved threeLinesText);
                    ConsoleError
                      (threeLinesText ++ str " is not what I asked for.")] |}.
Proof. split; vm_compute; reflexivity. Qed.

(** C1, amended.  The loop of the async function consumes exactly one read
    result in each iteration and takes the text of a read whole, as one
    attempt: at most one diagnostic follows it, echoing the whole text.
    When three successive reads resolve with the texts 0, 11 and 7, exactly
    two diagnostics are emitted, echoing 0 and 11, and the loop is then left
    with the success message reporting 7. *)
Theorem scenario_B (sd : number -> jsstring) :
  (forall c r,
     pc c = InLoop ->
     awaited (trace (iteration sd r c)) = awaited (trace c) ++ [r])
  /\ (forall c input,
        reachable sd c -> pc c = InLoop ->
        stderr (trace (iteration sd (Resolved input) c))
        = stderr (trace c)
          ++ match sanitizedNumber (unsanitizedNumber input) with
             | Some _ => []
             | None => [input ++ str " is not what I asked for."]
             end)
  /\ main sd [Resolved (str "0"); Resolved (str "11"); Resolved (str "7")]
     = {| pc := Finished;
          finalNumber := Sanitized {| sanitized_value := F 7 |};
          trace := [ConsoleLog (str "Give me a number between 1 and 10:");
                    Await (Resolved (str "0"));
                    ConsoleError (str "0 is not what I asked for.");
                    Await (Resolved (str "11"));
                    ConsoleError (str "11 is not what I asked for.");
                    Await (Resolved (str "7"));
                    ConsoleLog
                      (str "You did what I wanted and gave me 7!")] |}.
Proof.
  split; [ | split].
  - intros c r _. unfold iteration. destruct r as [input | e].
    + destruct (sanitizedNumber (unsanitizedNumber input)); cbv zeta;
        destruct (negb _); cbn [trace]; unfold awaited;
        rewrite ?flat_map_app; cbn [flat_map showError app];
        now rewrite ?app_nil_r.
    + cbn [trace]. unfold awaited. now rewrite flat_map_app.
  - intros c input Hc Hin.
    pose proof (reachable_shape sd c Hc) as Hf. rewrite Hin in Hf.
    destruct (sanitizedNumber (unsanitizedNumber input)) as [s | ] eqn:Hs.
    + rewrite (iteration_accepted sd input c s Hs). cbn [trace].
      unfold stderr. now rewrite flat_map_app.
    + rewrite (iteration_rejected sd input c Hf Hs). cbn [trace].
      unfold stderr. now rewrite flat_map_app.
  - vm_compute. reflexivity.
Qed.

Lemma scenario_B_witness :
  awaited (trace (iteration noShortestDigits (Resolved (str "0")) initial))
  = awaited (trace initial) ++ [Resolved (str "0")]
  /\ stderr (trace (iteration noShortestDigits (Resolved (str "0")) initial))
     = stderr (trace initial)
       ++ match sanitizedNumber (unsanitizedNumber (str "0")) with
          | Some _ => []
          | None => [str "0" ++ str " is not what I asked for."]
          end.
Proof.
  split.
  - apply (scenario_B noShortestDigits). reflexivity.
  - apply (scenario_B noShortestDigits).
    + apply reachable_initial.
    + reflexivity.
Defined.

(** ** Further facts, for the properties beyond the claims *)

Module Further.

Lemma digits2_big (p : positive) :
  2 ^ 53 <= Zpos p -> 53 < Zpos (digits2_pos p).
Proof.
  intros Hp. pose proof (digits2_upper p) as Hu.
  destruct (Z.lt_ge_cases 53 (Zpos (digits2_pos p))); [assumption | ].
  pose proof (pow2_le (Zpos (digits2_pos p)) 53 ltac:(lia)). lia.
Qed.

(** 𝔽 of an integer is an integer or an infinity. *)
Lemma F_integer_or_infinite (z : Z) :
  integerValue (F z) <> None \/ exists s, F z = S754_infinity s.
Proof.
  destruct (Z.lt_ge_cases (Z.abs z) (2 ^ 53)) as [Hb | Hb].
  - left. rewrite (integerValue_F z Hb). discriminate.
  - assert (Hgen : forall s p, 2 ^ 53 <= Zpos p ->
      integerValue (binary_round prec emax s p 0) <> None
      \/ exists s', binary_round prec emax s p 0 = S754_infinity s').
    { intros s p Hp.
      pose proof (binary_round_big s p (digits2_big p Hp)) as Hs.
      pose proof (binary_round_not_nan s p) as Hn.
      destruct (binary_round prec emax s p 0) as [s' | s' | | s' m e].
      - left. discriminate.
      - right. now exists s'.
      - congruence.
      - left. destruct e as [ | q | q]; try lia. discriminate. }
    unfold F, binary_normalize.
    destruct z as [ | p | p]; [simpl in Hb; lia | | ]; apply Hgen; lia.
Qed.

Lemma range_small (n : Z) :
  1 <= n <= 10 -> gt (F n) (F 0) && le (F n) (F 10) = true.
Proof. intros Hn. pattern n. apply (small_cases n); trivial. Qed.

(** The two stages, in one test. *)
Lemma pipeline_spec (input : jsstring) :
  pipeline input =
  if isNaN (parseInt input) then None
  else if gt (parseInt input) (F 0) && le (parseInt input) (F 10)
       then Some {| sanitized_value := parseInt input |}
       else None.
Proof.
  unfold pipeline, unsanitizedNumber, sanitizedNumber.
  destruct (isNaN (parseInt input)); reflexivity.
Qed.

Lemma pipeline_signedNumber (input : jsstring) (negative : bool) (v : N) :
  parseInt input = signedNumber negative v ->
  pipeline input =
  if negb negative && (1 <=? v)%N && (v <=? 10)%N
  then Some {| sanitized_value := F (Z.of_N v) |}
  else None.
Proof.
  intros E. rewrite pipeline_spec, E. unfold signedNumber.
  destruct (N.eqb_spec v 0) as [-> | Hv].
  - destruct negative; reflexivity.
  - rewrite F_not_nan.
    destruct (gt (F (cond_Zopp negative (Z.of_N v))) (F 0)
              && le (F (cond_Zopp negative (Z.of_N v))) (F 10)) eqn:Hr.
    + apply F_in_range in Hr.
      destruct negative; simpl in Hr; [lia | ]. simpl.
      destruct (N.leb_spec 1 v); [ | lia].
      destruct (N.leb_spec v 10); [reflexivity | lia].
    + destruct negative; [reflexivity | ]. simpl.
      destruct (N.leb_spec 1 v); [ | reflexivity].
      destruct (N.leb_spec v 10); [ | reflexivity].
      rewrite range_small in Hr by (simpl; lia). discriminate.
Qed.

Lemma parseInt_parseUnsigned (s : jsstring) :
  parseInt s = parseUnsigned (fst (afterSign s)) (snd (afterSign s)).
Proof. apply parseInt_afterSign. Qed.

(** White space in front, and one more code unit behind. *)
Lemma trimStart_app (ws s : jsstring) :
  Forall (fun c => isWhiteSpace c = true) ws ->
  trimStart (ws ++ s) = trimStart s.
Proof.
  induction 1 as [ | c ws Hc _ IH]; [reflexivity | ].
  cbn [app trimStart]. now rewrite Hc.
Qed.

Lemma trimStart_snoc (s : jsstring) (c : code_unit) :
  trimStart (s ++ [c]) =
  match trimStart s with
  | [] => trimStart [c]
  | t => t ++ [c]
  end.
Proof.
  induction s as [ | a s IH]; [reflexivity | ].
  cbn [app trimStart]. destruct (isWhiteSpace a); [exact IH | reflexivity].
Qed.

Lemma radixPrefix_snoc (R : N) (s : jsstring) (c : code_unit) :
  isRadixDigit R c = false -> radixPrefix R (s ++ [c]) = radixPrefix R s.
Proof.
  intros Hc. induction s as [ | a s IH]; simpl.
  - now rewrite Hc.
  - destruct (isRadixDigit R a); now rewrite ?IH.
Qed.

Lemma parseUnsigned_snoc (negative : bool) (u : jsstring) (c : code_unit) :
  digitValue c = None ->
  parseUnsigned negative (u ++ [c]) = parseUnsigned negative u.
Proof.
  intros Hc.
  assert (Hr : forall R, isRadixDigit R c = false)
    by (intros R; unfold isRadixDigit; now rewrite Hc).
  assert (Hx : ((c =? 0x78) || (c =? 0x58))%N = false).
  { destruct (N.eqb_spec c 0x78) as [-> | _]; [discriminate Hc | ].
    destruct (N.eqb_spec c 0x58) as [-> | _]; [discriminate Hc | reflexivity]. }
  unfold parseUnsigned.
  destruct u as [ | c0 [ | c1 u]]; cbn [app].
  - cbn [radixPrefix]. now rewrite Hr.
  - rewrite Hx, andb_false_r.
    change [c0; c] with ([c0] ++ [c]).
    now rewrite (radixPrefix_snoc 10 [c0] c (Hr _)).
  - destruct ((c0 =? 0x30) && ((c1 =? 0x78) || (c1 =? 0x58)))%N.
    + now rewrite (radixPrefix_snoc 16 u c (Hr _)).
    + change (c0 :: c1 :: u ++ [c]) with ((c0 :: c1 :: u) ++ [c]).
      now rewrite (radixPrefix_snoc 10 (c0 :: c1 :: u) c (Hr _)).
Qed.

Lemma parseInt_snoc (s : jsstring) (c : code_unit) :
  digitValue c = None -> parseInt (s ++ [c]) = parseInt s.
Proof.
  intros Hc. rewrite !parseInt_parseUnsigned. unfold afterSign.
  rewrite trimStart_snoc.
  destruct (trimStart s) as [ | a t].
  - assert (Hn : forall b, parseUnsigned b [c] = NaN).
    { intros b. unfold parseUnsigned. cbn [radixPrefix].
      unfold isRadixDigit. now rewrite Hc. }
    cbn [trimStart]. destruct (isWhiteSpace c); [reflexivity | ].
    destruct (c =? 0x2D)%N; [reflexivity | ].
    destruct (c =? 0x2B)%N; [reflexivity | ].
    cbn [fst snd]. now rewrite Hn.
  - cbn [app].
    destruct (a =? 0x2D)%N; [apply parseUnsigned_snoc, Hc | ].
    destruct (a =? 0x2B)%N; [apply parseUnsigned_snoc, Hc | ].
    cbn [fst snd]. apply (parseUnsigned_snoc false (a :: t) c Hc).
Qed.

Section MoreRuns.

Variable sd : number -> jsstring.

(** The loop over attempts that are all turned down. *)
Lemma run_rejected (inputs : list jsstring) (c : config) :
  pc c = InLoop -> finalNumber c = Invalid mkInvalidNumber ->
  Forall rejected inputs ->
  run sd (map Resolved inputs) c =
  {| pc := InLoop;
     finalNumber := finalNumber c;
     trace := trace c ++ flat_map attempt inputs |}.
Proof.
  intros Hpc Hf Hall. revert c Hpc Hf.
  induction Hall as [ | input inputs Hin _ IH]; intros c Hpc Hf.
  - destruct c as [p f tr]. cbn in *. now rewrite Hpc, app_nil_r.
  - cbn [map run]. rewrite Hpc.
    rewrite (iteration_rejected sd input c Hf Hin).
    rewrite IH by (try reflexivity; exact Hf).
    cbn [finalNumber trace flat_map]. unfold attempt at 2.
    now rewrite <- app_assoc.
Qed.

(** Every sequence of reads is a run of rejected texts, followed by nothing,
    by an accepted text or by a failed read. *)
Lemma reads_split (reads : list settled) :
  exists inputs,
    Forall rejected inputs
    /\ (reads = map Resolved inputs
        \/ (exists input rest,
              reads = map Resolved inputs ++ Resolved input :: rest
              /\ pipeline input <> None)
        \/ (exists e rest,
              reads = map Resolved inputs ++ Rejected e :: rest)).
Proof.
  induction reads as [ | r reads (inputs & Hall & IH)].
  - exists []. split; [constructor | now left].
  - destruct r as [input | e].
    + destruct (pipeline input) as [s | ] eqn:E.
      * exists []. split; [constructor | ]. right; left.
        exists input, reads. split; [reflexivity | congruence].
      * exists (input :: inputs). split; [now constructor | ].
        destruct IH as [-> | [(i & rest & -> & Hi) | (e & rest & ->)]].
        -- now left.
        -- right; left. now exists i, rest.
        -- right; right. now exists e, rest.
    + exists []. split; [constructor | ]. right; right. now exists e, reads.
Qed.

Lemma iteration_trace (r : settled) (c : config) :
  exists tr, trace (iteration sd r c) = trace c ++ tr.
Proof.
  unfold iteration. destruct r as [input | e]; [ | cbn [trace]; eauto].
  destruct (sanitizedNumber (unsanitizedNumber input)); cbv zeta;
    destruct (negb _); cbn [trace]; rewrite <- ?app_assoc; eauto.
Qed.

Lemma run_trace (reads : list settled) (c : config) :
  exists tr, trace (run sd reads c) = trace c ++ tr.
Proof.
  revert c. induction reads as [ | r reads IH]; intros c.
  - exists []. now rewrite app_nil_r.
  - cbn [run]. destruct (pc c); try (exists []; now rewrite app_nil_r).
    destruct (IH (iteration sd r c)) as [tr ->].
    destruct (iteration_trace r c) as [tr' ->].
    rewrite <- app_assoc. eauto.
Qed.

Lemma stdout_app (a b : list effect) : stdout (a ++ b) = stdout a ++ stdout b.
Proof. apply flat_map_app. Qed.

End MoreRuns.

End Further.

Import Further.

(** ** Properties beyond the claims *)

(** *** The parsing stage *)

(** X1.  What [unsanitizedNumber] wraps is never NaN and never a fraction:
    it is an integer (a zero included) or an infinity. *)
Theorem unsanitizedNumber_integral (input : jsstring) (u : UnsanitizedNumber) :
  unsanitizedNumber input = Some u ->
  integerValue (unsanitized_value u) <> None
  \/ exists s, unsanitized_value u = S754_infinity s.
Proof.
  unfold unsanitizedNumber.
  destruct (isNaN (parseInt input)) eqn:Hn; [discriminate | ].
  intros [= <-]. cbn [unsanitized_value].
  destruct (parseInt_shape input) as [E | (negative & v & E)]; rewrite E in *.
  - discriminate Hn.
  - unfold signedNumber. destruct (v =? 0)%N.
    + left. discriminate.
    + apply F_integer_or_infinite.
Qed.

Lemma unsanitizedNumber_integral_witness :
  integerValue (unsanitized_value {| unsanitized_value := F (-31) |}) <> None
  \/ exists s,
       unsanitized_value {| unsanitized_value := F (-31) |} = S754_infinity s.
Proof.
  apply (unsanitizedNumber_integral (str "-0x1f")). reflexivity.
Defined.

(** X2.  Leading white space does not change what [unsanitizedNumber]
    returns. *)
Theorem unsanitizedNumber_leading_space (ws s : jsstring) :
  Forall (fun c => isWhiteSpace c = true) ws ->
  unsanitizedNumber (ws ++ s) = unsanitizedNumber s.
Proof.
  intros Hws. unfold unsanitizedNumber, parseInt.
  now rewrite (trimStart_app ws s Hws).
Qed.

Lemma unsanitizedNumber_leading_space_witness :
  unsanitizedNumber ([0x20%N; 0x09%N] ++ str "8") = unsanitizedNumber (str "8").
Proof.
  apply (unsanitizedNumber_leading_space [0x20%N; 0x09%N] (str "8")).
  repeat constructor.
Defined.

(** X3.  One more code unit at the end that is neither a digit nor a letter,
    such as the line terminator a typed line ends with, does not change
    what [unsanitizedNumber] returns. *)
Theorem unsanitizedNumber_trailing_unit (s : jsstring) (c : code_unit) :
  digitValue c = None ->
  unsanitizedNumber (s ++ [c]) = unsanitizedNumber s.
Proof.
  intros Hc. unfold unsanitizedNumber. now rewrite (parseInt_snoc s c Hc).
Qed.

Lemma unsanitizedNumber_trailing_unit_witness :
  unsanitizedNumber (str "7" ++ [LF]) = unsanitizedNumber (str "7").
Proof.
  apply (unsanitizedNumber_trailing_unit (str "7") LF). reflexivity.
Defined.

(** *** The two stages together *)

(** X4.  The two stages accept a text exactly when [parseInt] reads one of
    the integers 1 to 10 from it, and the SanitizedNumber returned wraps
    that integer. *)
Theorem pipeline_accepts_exactly (input : jsstring) (s : SanitizedNumber) :
  sanitizedNumber (unsanitizedNumber input) = Some s
  <-> exists n, 1 <= n <= 10 /\ parseInt input = F n
                /\ s = {| sanitized_value := F n |}.
Proof.
  fold (pipeline input). rewrite pipeline_spec. split.
  - destruct (isNaN (parseInt input)); [discriminate | ].
    destruct (gt (parseInt input) (F 0) && le (parseInt input) (F 10)) eqn:Hr;
      [ | discriminate].
    intros [= <-].
    destruct (parseInt_shape input) as [E | (negative & v & E)]; rewrite E in *.
    + discriminate Hr.
    + unfold signedNumber in *. destruct (v =? 0)%N.
      * destruct negative; discriminate Hr.
      * eexists. split; [apply F_in_range, Hr | split; reflexivity].
  - intros (n & Hn & -> & ->).
    now rewrite F_not_nan, (range_small n Hn).
Qed.

(** X5.  On a text without the [0x] prefix the two stages accept exactly
    the leading decimal numerals from 1 to 10 that carry no minus sign, and
    wrap their value; everything else is turned down. *)
Theorem pipeline_decimal (s : jsstring) :
  hexPrefixed s = false ->
  sanitizedNumber (unsanitizedNumber s) =
  match leadingDecimal s with
  | Some (false, v) =>
      if ((1 <=? v) && (v <=? 10))%N
      then Some {| sanitized_value := F (Z.of_N v) |}
      else None
  | _ => None
  end.
Proof.
  intros Hh. fold (pipeline s).
  pose proof (parseInt_decimal s Hh) as E.
  destruct (leadingDecimal s) as [[negative v] | ].
  - rewrite (pipeline_signedNumber s negative v E).
    destruct negative; reflexivity.
  - now rewrite pipeline_spec, E.
Qed.

Lemma pipeline_decimal_witness :
  sanitizedNumber (unsanitizedNumber (str "+10 or so")) =
  match leadingDecimal (str "+10 or so") with
  | Some (false, v) =>
      if ((1 <=? v) && (v <=? 10))%N
      then Some {| sanitized_value := F (Z.of_N v) |}
      else None
  | _ => None
  end.
Proof.
  apply (pipeline_decimal (str "+10 or so")). reflexivity.
Defined.

(** X6.  A text whose first code unit after the white space is a minus sign
    is always turned down, whatever follows, a hexadecimal numeral
    included. *)
Theorem pipeline_minus_sign (ws rest : jsstring) :
  Forall (fun c => isWhiteSpace c = true) ws ->
  sanitizedNumber (unsanitizedNumber (ws ++ 0x2D%N :: rest)) = None.
Proof.
  intros Hws. fold (pipeline (ws ++ 0x2D%N :: rest)).
  assert (Ha : afterSign (ws ++ 0x2D%N :: rest) = (true, rest)).
  { unfold afterSign. now rewrite (trimStart_app _ _ Hws). }
  pose proof (parseInt_parseUnsigned (ws ++ 0x2D%N :: rest)) as E.
  rewrite Ha in E. cbn [fst snd] in E. unfold parseUnsigned in E.
  destruct (match rest with
            | c0 :: c1 :: rest0 =>
                if ((c0 =? 0x30) && ((c1 =? 0x78) || (c1 =? 0x58)))%N
                then (16%N, rest0) else (10%N, rest)
            | _ => (10%N, rest)
            end) as [R body].
  destruct (radixPrefix R body) as [ | c ds].
  - now rewrite pipeline_spec, E.
  - now rewrite (pipeline_signedNumber _ true _ E).
Qed.

Lemma pipeline_minus_sign_witness :
  sanitizedNumber (unsanitizedNumber ([0x20%N] ++ 0x2D%N :: str "5")) = None.
Proof.
  apply (pipeline_minus_sign [0x20%N] (str "5")). repeat constructor.
Defined.

(** X7.  A SanitizedNumber that [sanitizedNumber] returns wraps the very
    number it was given, and that number passes the range test; the value 0
    of the test datum of line 134 is therefore one it never returns. *)
Theorem sanitizedNumber_returns (input : option UnsanitizedNumber)
    (s : SanitizedNumber) :
  sanitizedNumber input = Some s ->
  input = Some {| unsanitized_value := sanitized_value s |}
  /\ gt (sanitized_value s) (F 0) = true
  /\ le (sanitized_value s) (F 10) = true
  /\ s <> sanitizedTestData.
Proof.
  destruct input as [[v] | ]; [ | discriminate].
  unfold sanitizedNumber. cbn [unsanitized_value].
  destruct (gt v (F 0)) eqn:Hg; [ | discriminate].
  destruct (le v (F 10)) eqn:Hl; [ | discriminate].
  intros [= <-]. cbn [sanitized_value]. repeat split; trivial.
  intros [= ->]. discriminate Hg.
Qed.

Lemma sanitizedNumber_returns_witness :
  Some {| unsanitized_value := F 5 |}
  = Some {| unsanitized_value := sanitized_value {| sanitized_value := F 5 |} |}.
Proof.
  apply (sanitizedNumber_returns (Some {| unsanitized_value := F 5 |})
           {| sanitized_value := F 5 |}).
  reflexivity.
Defined.

(** *** The interaction loop *)

(** X8.  However many attempts are turned down, the program stays in its
    loop: after the prompt the trace holds, for each attempt in order, its
    read and its one diagnostic, and nothing else. *)
Theorem loop_all_rejected (sd : number -> jsstring) (inputs : list jsstring) :
  Forall rejected inputs ->
  main sd (map Resolved inputs) =
  {| pc := InLoop;
     finalNumber := Invalid mkInvalidNumber;
     trace := ConsoleLog (str "Give me a number between 1 and 10:")
              :: flat_map attempt inputs |}.
Proof.
  intros Hall. unfold main.
  now rewrite (run_rejected sd inputs (initial) eq_refl eq_refl Hall).
Qed.

Lemma loop_all_rejected_witness :
  main noShortestDigits (map Resolved [str "0"; str "eleven"; []]) =
  {| pc := InLoop;
     finalNumber := Invalid mkInvalidNumber;
     trace := ConsoleLog (str "Give me a number between 1 and 10:")
              :: flat_map attempt [str "0"; str "eleven"; []] |}.
Proof.
  apply (loop_all_rejected noShortestDigits [str "0"; str "eleven"; []]).
  repeat constructor.
Defined.

(** X9.  The loop is left at the first text the two stages accept: the
    attempts before it each leave their read and diagnostic, the accepted
    one its read and the success message with the number it wraps, and the
    reads that would follow are never performed. *)
Theorem loop_first_accepted (sd : number -> jsstring)
    (inputs : list jsstring) (input : jsstring) (s : SanitizedNumber)
    (rest : list settled) :
  Forall rejected inputs -> pipeline input = Some s ->
  main sd (map Resolved inputs ++ Resolved input :: rest) =
  {| pc := Finished;
     finalNumber := Sanitized s;
     trace := ConsoleLog (str "Give me a number between 1 and 10:")
              :: flat_map attempt inputs
              ++ [Await (Resolved input);
                  ConsoleLog (str "You did what I wanted and gave me "
                              ++ numberToString sd (sanitized_value s)
                              ++ str "!")] |}.
Proof.
  intros Hall Hs. unfold main. rewrite run_app.
  rewrite (run_rejected sd inputs (initial) eq_refl eq_refl Hall).
  cbn [run pc]. rewrite (iteration_accepted sd input _ s Hs).
  rewrite run_stopped by discriminate. reflexivity.
Qed.

Lemma loop_first_accepted_witness :
  main noShortestDigits
    (map Resolved [str "12"] ++ Resolved (str "0xA") :: [Resolved (str "3")]) =
  {| pc := Finished;
     finalNumber := Sanitized {| sanitized_value := F 10 |};
     trace := ConsoleLog (str "Give me a number between 1 and 10:")
              :: flat_map attempt [str "12"]
              ++ [Await (Resolved (str "0xA"));
                  ConsoleLog (str "You did what I wanted and gave me "
                              ++ numberToString noShortestDigits
                                   (sanitized_value
                                      {| sanitized_value := F 10 |})
                              ++ str "!")] |}.
Proof.
  apply (loop_first_accepted noShortestDigits [str "12"] (str "0xA")
           {| sanitized_value := F 10 |} [Resolved (str "3")]).
  - repeat constructor.
  - reflexivity.
Defined.

(** X10.  Whatever the reads, the program is in one of three situations:
    still in its loop when every read gave a rejected text, finished when a
    read gave an accepted text after rejected ones only, crashed when a
    read failed after rejected ones only. *)
Theorem loop_outcomes (sd : number -> jsstring) (reads : list settled) :
  exists inputs,
    Forall rejected inputs
    /\ ((reads = map Resolved inputs /\ pc (main sd reads) = InLoop)
        \/ (exists input rest,
              reads = map Resolved inputs ++ Resolved input :: rest
              /\ pipeline input <> None
              /\ pc (main sd reads) = Finished)
        \/ (exists e rest,
              reads = map Resolved inputs ++ Rejected e :: rest
              /\ pc (main sd reads) = Crashed e)).
Proof.
  destruct (reads_split reads) as (inputs & Hall & Hsplit).
  exists inputs. split; [exact Hall | ].
  destruct Hsplit as [-> | [(input & rest & -> & Hi) | (e & rest & ->)]].
  - left. split; [reflexivity | ]. unfold main.
    now rewrite (run_rejected sd inputs (initial) eq_refl eq_refl Hall).
  - right; left. exists input, rest. repeat split; trivial.
    destruct (pipeline input) as [s | ] eqn:Hs; [ | congruence].
    unfold main. rewrite run_app.
    rewrite (run_rejected sd inputs (initial) eq_refl eq_refl Hall).
    cbn [run pc]. rewrite (iteration_accepted sd input _ s Hs).
    now rewrite run_stopped by discriminate.
  - right; right. exists e, rest. split; [reflexivity | ].
    unfold main. rewrite run_app.
    rewrite (run_rejected sd inputs (initial) eq_refl eq_refl Hall).
    cbn [run pc iteration].
    now rewrite run_stopped by discriminate.
Qed.

(** X11.  Once the program has finished or crashed, no further read changes
    anything: nothing more is read or printed. *)
Theorem loop_settled (sd : number -> jsstring) (reads more : list settled) :
  pc (main sd reads) <> InLoop ->
  main sd (reads ++ more) = main sd reads.
Proof.
  intros H. unfold main in *. rewrite run_app. now apply run_stopped.
Qed.

Lemma loop_settled_witness :
  main noShortestDigits ([Resolved (str "4")] ++ [Resolved (str "x")])
  = main noShortestDigits [Resolved (str "4")].
Proof.
  apply (loop_settled noShortestDigits [Resolved (str "4")]
           [Resolved (str "x")]).
  discriminate.
Defined.

(** X12.  Further reads only add to the trace: what the program has printed
    and read so far is a prefix of what it has printed and read later. *)
Theorem trace_grows (sd : number -> jsstring) (reads more : list settled) :
  exists tr,
    trace (main sd (reads ++ more)) = trace (main sd reads) ++ tr.
Proof. unfold main. rewrite run_app. apply run_trace. Qed.

(** X13.  The standard output receives the prompt first and, when the loop
    has been left, the success message; nothing else is ever written to it,
    the diagnostics going to the error channel only. *)
Theorem stdout_discipline (sd : number -> jsstring) (c : config) :
  reachable sd c ->
  stdout (trace c) =
  str "Give me a number between 1 and 10:"
  :: match pc c with
     | Finished => [successMessage sd (finalNumber c)]
     | _ => []
     end.
Proof.
  induction 1 as [ | c c' Hc IH Hstep]; [reflexivity | ].
  destruct Hstep as [r c Hin]. rewrite Hin in IH.
  pose proof (reachable_shape sd c Hc) as Hf. rewrite Hin in Hf.
  destruct r as [input | e].
  - destruct (sanitizedNumber (unsanitizedNumber input)) as [s | ] eqn:Hs.
    + rewrite (iteration_accepted sd input c s Hs). cbn [pc finalNumber trace].
      now rewrite stdout_app, IH.
    + rewrite (iteration_rejected sd input c Hf Hs). cbn [pc trace].
      rewrite stdout_app, IH. reflexivity.
  - cbn [iteration pc trace]. rewrite stdout_app, IH. reflexivity.
Qed.

Lemma stdout_discipline_witness :
  stdout (trace (main noShortestDigits [Resolved (str "x"); Resolved (str "2")]))
  = str "Give me a number between 1 and 10:"
    :: match pc (main noShortestDigits
                   [Resolved (str "x"); Resolved (str "2")]) with
       | Finished =>
           [successMessage noShortestDigits
              (finalNumber
                 (main noShortestDigits
                    [Resolved (str "x"); Resolved (str "2")]))]
       | _ => []
       end.
Proof.
  apply (stdout_discipline noShortestDigits
           (main noShortestDigits [Resolved (str "x"); Resolved (str "2")])).
  apply main_reachable.
Defined.

(** *** The typing checks *)

(** X14.  The [switch] of [getValue] takes a case for every AppNumber.  On
    the loop's variable it gives [undefined] as long as the loop has not
    been left, and afterwards an integer from 1 to 10. *)
Theorem getValue_of_finalNumber (sd : number -> jsstring) (c : config) :
  reachable sd c ->
  (forall num, getValue num = value num)
  /\ (pc c <> Finished -> getValue (finalNumber c) = None)
  /\ (pc c = Finished ->
      exists n, 1 <= n <= 10 /\ getValue (finalNumber c) = Some (F n)).
Proof.
  intros Hc. split; [ | split].
  - intros [i | s | u]; reflexivity.
  - intros Hn. pose proof (reachable_shape sd c Hc) as Hs.
    destruct (pc c); [ | congruence | ]; now rewrite Hs.
  - intros Hfin. pose proof (reachable_shape sd c Hc) as Hs.
    rewrite Hfin in Hs. destruct Hs as (n & tr & Hn & -> & _).
    exists n. split; [exact Hn | reflexivity].
Qed.

Lemma getValue_of_finalNumber_witness :
  exists n, 1 <= n <= 10
            /\ getValue (finalNumber (main noShortestDigits [Resolved (str "9")]))
               = Some (F n).
Proof.
  apply (getValue_of_finalNumber noShortestDigits
           (main noShortestDigits [Resolved (str "9")])).
  - apply main_reachable.
  - reflexivity.
Defined.

(** *** Failures *)

(** X15.  A read that fails while the loop is running is not recovered: the
    rejection leaves the async function at once, with no diagnostic for it,
    no change of the loop's variable, no further read and no success
    message. *)
Theorem read_failure_propagates (sd : number -> jsstring)
    (reads rest : list settled) (e : io_error) :
  pc (main sd reads) = InLoop ->
  main sd (reads ++ Rejected e :: rest)
  = {| pc := Crashed e;
       finalNumber := finalNumber (main sd reads);
       trace := trace (main sd reads) ++ [Await (Rejected e)] |}.
Proof.
  intros Hin. unfold main in *. rewrite run_app. cbn [run]. rewrite Hin.
  now apply run_stopped.
Qed.

Lemma read_failure_propagates_witness :
  main noShortestDigits
    ([Resolved (str "0")]
     ++ Rejected (IOError (str "EIO")) :: [Resolved (str "5")])
  = {| pc := Crashed (IOError (str "EIO"));
       finalNumber := finalNumber (main noShortestDigits [Resolved (str "0")]);
       trace := trace (main noShortestDigits [Resolved (str "0")])
                ++ [Await (Rejected (IOError (str "EIO")))] |}.
Proof.
  apply (read_failure_propagates noShortestDigits [Resolved (str "0")]
           [Resolved (str "5")] (IOError (str "EIO"))).
  reflexivity.
Defined.

